(** * cardio-vo2: exercise-physiology formulas, data cleaning and aggregation

    A shallow embedding of [carido-vo2-utils.py]: the ACSM formula library on
    numpy values, the data cleaner [remove_flat_treadmill] on pandas frames
    held in a store, and the summaries computed by the two plotting
    functions. *)

From Stdlib Require Import QArith Qreduction Qabs Qround Qpower Ascii Lqa.
From stdpp Require Import gmap strings list sorting.

Open Scope string_scope.
Open Scope list_scope.

(** * Python exceptions and results *)

Inductive exn :=
  | KeyError (key : string)
  | AttributeError (type_name attr : string)
  | TypeError (msg : string)
  | ValueError (msg : string).

Inductive result (A : Type) :=
  | Ok (a : A)
  | Raise (e : exn).
Arguments Ok {A} a.
Arguments Raise {A} e.

#[global] Instance result_ret : MRet result := λ A a, Ok a.
#[global] Instance result_bind : MBind result := λ A B f m,
  match m with
  | Ok a => f a
  | Raise e => Raise e
  end.

(** * Floating-point values

    A [float] is an IEEE 754 binary64 value, as Python and numpy compute with:
    a finite value is the rational it stands for (in lowest terms), and
    addition, multiplication and division give the exact result rounded to
    the nearest binary64 value, ties to the even mantissa, with overflow to an
    infinity and gradual underflow to the subnormals and to zero.  The two
    infinities and NaN follow the IEEE rules.  The two zeros are one value:
    the sign of a zero is not kept (it shows only when a zero is printed). *)

Module Float.

Inductive float :=
  | Fin (q : Q)
  | Inf (neg : bool)
  | NaN.

Definition Qneg_bool (q : Q) : bool := negb (Qle_bool 0 q).
Definition Qzero_bool (q : Q) : bool := Qeq_bool q 0.

(** The integer nearest to [q], ties to the even one. *)
Definition round_half_even (q : Q) : Z :=
  let f := Qfloor q in
  match Qcompare (q - inject_Z f) (1 # 2) with
  | Lt => f
  | Gt => (f + 1)%Z
  | Eq => if Z.even f then f else (f + 1)%Z
  end.

(** [2^e], for an exponent of either sign. *)
Definition pow2 (e : Z) : Q := Qpower 2 e.

(** The exponent [e] of a positive rational in lowest terms:
    [2^e <= q < 2^(e+1)]. *)
Definition ilog2 (q : Q) : Z :=
  let e := (Z.log2 (Qnum q) - Z.log2 (Zpos (Qden q)))%Z in
  if Qle_bool (pow2 e) q then e else (e - 1)%Z.

(** [round64 q] is the binary64 value nearest to [q].  A finite binary64
    value is [m * 2^u] with [m < 2^53] and [-1074 <= u]; the unit [2^u] in
    the last place of [q] is 52 binary places below its leading bit, and
    [2^-1074] for the subnormals.  A result of [2^1024] or more is an
    infinity. *)
Definition round64 (q : Q) : float :=
  let q := Qred q in
  if Qzero_bool q then Fin 0 else
  let a := Qabs q in
  let u := Z.max (ilog2 a - 52) (-1074) in
  let r := (inject_Z (round_half_even (a / pow2 u)) * pow2 u)%Q in
  if Qle_bool (pow2 1024) r then Inf (Qneg_bool q)
  else Fin (Qred (if Qneg_bool q then (- r)%Q else r)).

(** A decimal literal of the source, or a decimal numeral that is parsed, is
    the binary64 value nearest to it. *)
Definition of_Q (q : Q) : float := round64 q.

Definition isnan (x : float) : bool :=
  match x with NaN => true | _ => false end.

Definition isfinite (x : float) : bool :=
  match x with Fin _ => true | _ => false end.

Definition neg (x : float) : float :=
  match x with
  | Fin q => Fin (Qred (- q))
  | Inf s => Inf (negb s)
  | NaN => NaN
  end.

Definition abs (x : float) : float :=
  match x with
  | Fin q => Fin (Qred (Qabs q))
  | Inf _ => Inf false
  | NaN => NaN
  end.

Definition add (x y : float) : float :=
  match x, y with
  | NaN, _ | _, NaN => NaN
  | Inf s, Inf s' => if Bool.eqb s s' then Inf s else NaN
  | Inf s, Fin _ | Fin _, Inf s => Inf s
  | Fin a, Fin b => round64 (a + b)
  end.

Definition sub (x y : float) : float := add x (neg y).

Definition mul (x y : float) : float :=
  match x, y with
  | NaN, _ | _, NaN => NaN
  | Inf s, Inf s' => Inf (xorb s s')
  | Inf s, Fin q | Fin q, Inf s =>
      if Qzero_bool q then NaN else Inf (xorb s (Qneg_bool q))
  | Fin a, Fin b => round64 (a * b)
  end.

Definition div (x y : float) : float :=
  match x, y with
  | NaN, _ | _, NaN => NaN
  | Inf _, Inf _ => NaN
  | Inf s, Fin q => Inf (xorb s (Qneg_bool q))
  | Fin _, Inf _ => Fin 0
  | Fin a, Fin b =>
      if Qzero_bool b then (if Qzero_bool a then NaN else Inf (Qneg_bool a))
      else round64 (a / b)
  end.

(** Python's [==] and [<=] on floats: every comparison with NaN is false. *)
Definition eqb (x y : float) : bool :=
  match x, y with
  | Fin a, Fin b => Qeq_bool a b
  | Inf s, Inf s' => Bool.eqb s s'
  | _, _ => false
  end.

Definition leb (x y : float) : bool :=
  match x, y with
  | NaN, _ | _, NaN => false
  | Inf true, _ | _, Inf false => true
  | Inf false, _ | _, Inf true => false
  | Fin a, Fin b => Qle_bool a b
  end.

Definition ltb (x y : float) : bool := leb x y && negb (eqb x y).

(** The order used for sorting and for group keys: NaN sorts last. *)
Definition compare (x y : float) : comparison :=
  match x, y with
  | NaN, NaN => Eq
  | NaN, _ => Gt
  | _, NaN => Lt
  | Inf s, Inf s' =>
      if Bool.eqb s s' then Eq else if s then Lt else Gt
  | Inf s, Fin _ => if s then Lt else Gt
  | Fin _, Inf s => if s then Gt else Lt
  | Fin a, Fin b => Qcompare a b
  end.

End Float.
Export Float.

Declare Scope float_scope.
Delimit Scope float_scope with float.
Bind Scope float_scope with float.
Infix "+" := Float.add : float_scope.
Infix "-" := Float.sub : float_scope.
Infix "*" := Float.mul : float_scope.
Infix "/" := Float.div : float_scope.
Infix "==" := Float.eqb (at level 70, no associativity) : float_scope.
Infix "<=?" := Float.leb : float_scope.

(** Decimal literals of the source are read as rationals and coerced. *)
Coercion of_Q : Q >-> float.

(** * numpy values

    [np.asarray(x, dtype=float)] is a 0-d value for a Python number and a 1-d
    array for a sequence.  Arithmetic broadcasts; on two 0-d operands it
    returns a [numpy.float64] scalar, which does not support item
    assignment. *)

Inductive ndarray :=
  | Scalar (x : float)
  | Array (xs : list float).

Definition asarray (a : ndarray) : ndarray := a.

Definition broadcast_error : exn :=
  ValueError "operands could not be broadcast together".

Definition ufunc2 (f : float → float → float) (a b : ndarray) : result ndarray :=
  match a, b with
  | Scalar x, Scalar y => Ok (Scalar (f x y))
  | Scalar x, Array ys => Ok (Array (f x <$> ys))
  | Array xs, Scalar y => Ok (Array ((λ x, f x y) <$> xs))
  | Array xs, Array ys =>
      if Nat.eqb (length xs) (length ys) then Ok (Array (zip_with f xs ys))
      else match xs, ys with
           | [x], _ => Ok (Array (f x <$> ys))
           | _, [y] => Ok (Array ((λ x, f x y) <$> xs))
           | _, _ => Raise broadcast_error
           end
  end.

Definition np_add := ufunc2 Float.add.
Definition np_sub := ufunc2 Float.sub.
Definition np_mul := ufunc2 Float.mul.
Definition np_div := ufunc2 Float.div.

(** [a[mask] = v] with [mask] computed element-wise from [a] by [p]. *)
Definition setitem_where (a : ndarray) (p : float → bool) (v : float) : result ndarray :=
  match a with
  | Scalar _ =>
      Raise (TypeError "'numpy.float64' object does not support item assignment")
  | Array xs => Ok (Array ((λ x, if p x then v else x) <$> xs))
  end.

(** * ACSM equations and kcal/min *)

Open Scope Q_scope.
Open Scope float_scope.

Definition vo2_treadmill_gross_mLkgmin (speed_mph grade_pct : ndarray) : result ndarray :=
  S ← np_mul (asarray speed_mph) (Scalar 26.8224);
  G ← np_div (asarray grade_pct) (Scalar 100);
  t1 ← np_mul (Scalar 0.1) S;
  t2 ← np_add (Scalar 3.5) t1;
  t3 ← np_mul (Scalar 1.8) S;
  t4 ← np_mul t3 G;
  np_add t2 t4.

Definition vo2_stair_gross_mLkgmin (spm step_h_m : ndarray) : result ndarray :=
  let spm := asarray spm in
  let step_h_m := asarray step_h_m in
  t1 ← np_mul (Scalar 0.2) spm;
  t2 ← np_add (Scalar 3.5) t1;
  t3 ← np_mul (Scalar 2.4) spm;
  t4 ← np_mul t3 step_h_m;
  np_add t2 t4.

Definition kcal_per_min_from_vo2_mLkgmin (vo2_mLkgmin mass_kg : ndarray) : result ndarray :=
  p ← np_mul (asarray vo2_mLkgmin) (asarray mass_kg);
  vo2_L_min ← np_div p (Scalar 1000);
  np_mul vo2_L_min (Scalar 5).

Definition net_kcal_per_min_from_gross_vo2 (vo2_gross_mLkgmin mass_kg : ndarray) : result ndarray :=
  net ← np_sub (asarray vo2_gross_mLkgmin) (Scalar 3.5);
  kcal_per_min_from_vo2_mLkgmin net mass_kg.

(** * Mechanical and metabolic power, efficiency *)

(** Default value of the keyword argument [g]. *)
Definition g_default : float := 9.80665.

Definition mech_power_treadmill_W (mass_kg speed_mph grade_pct : ndarray) (g : float) : result ndarray :=
  v ← np_mul (asarray speed_mph) (Scalar 0.44704);
  G ← np_div (asarray grade_pct) (Scalar 100);
  t1 ← np_mul (asarray mass_kg) (Scalar g);
  t2 ← np_mul t1 v;
  np_mul t2 G.

Definition mech_power_stair_W (mass_kg spm step_h_m : ndarray) (g : float) : result ndarray :=
  t1 ← np_mul (asarray mass_kg) (Scalar g);
  t2 ← np_mul t1 (asarray step_h_m);
  t3 ← np_div (asarray spm) (Scalar 60);
  np_mul t2 t3.

Definition met_power_W (kcal_per_min : ndarray) : result ndarray :=
  np_mul (asarray kcal_per_min) (Scalar 69.78).

Definition efficiency (mech_W met_W : ndarray) : result ndarray :=
  let mech := asarray mech_W in
  let met := asarray met_W in
  eta ← np_div mech met;
  setitem_where eta (λ x, negb (isfinite x)) NaN.

Close Scope float_scope.
Close Scope Q_scope.

(** * Strings

    [str.lower] and [str.strip] on ASCII text. *)

Definition is_space (c : ascii) : bool :=
  let n := nat_of_ascii c in
  Nat.eqb n 32 || (Nat.leb 9 n && Nat.leb n 13).

Definition lower_ascii (c : ascii) : ascii :=
  let n := nat_of_ascii c in
  if Nat.leb 65 n && Nat.leb n 90 then ascii_of_nat (n + 32) else c.

Definition str_lower (s : string) : string :=
  String.string_of_list_ascii (map lower_ascii (String.list_ascii_of_string s)).

Fixpoint lstrip (l : list ascii) : list ascii :=
  match l with
  | c :: l' => if is_space c then lstrip l' else l
  | [] => []
  end.

Definition str_strip (s : string) : string :=
  String.string_of_list_ascii
    (reverse (lstrip (reverse (lstrip (String.list_ascii_of_string s))))).

(** * pandas frames

    A cell holds a string, a number or [None]; a missing number is the float
    NaN.  A frame has its column labels in order and one record per row,
    under the default positional index. *)

Inductive cell :=
  | CStr (s : string)
  | CNum (x : float)
  | CNone.

Abbreviation record := (gmap string cell).

Abbreviation Series := (list cell).

Record DataFrame := mkDF { columns : list string; rows : list record }.

#[global] Instance DataFrame_inhabited : Inhabited DataFrame := populate (mkDF [] []).

(** The value a frame shows at a label a record does not carry. *)
Definition cell_at (r : record) (c : string) : cell := default (CNum NaN) (r !! c).

Definition cell_num (c : cell) : float :=
  match c with CNum x => x | _ => NaN end.

Definition isna (c : cell) : bool :=
  match c with
  | CNum x => isnan x
  | CNone => true
  | CStr _ => false
  end.

Definition has_column (df : DataFrame) (c : string) : bool :=
  bool_decide (c ∈ columns df).

(** [df.empty]: some axis has length zero. *)
Definition df_empty (df : DataFrame) : bool :=
  match columns df, rows df with
  | [], _ | _, [] => true
  | _, _ => false
  end.

Definition column (df : DataFrame) (c : string) : Series :=
  (λ r, cell_at r c) <$> rows df.

(** [df[c]] *)
Definition df_getitem (df : DataFrame) (c : string) : result Series :=
  if has_column df c then Ok (column df c) else Raise (KeyError c).

(** [df.get(c)] *)
Definition df_get (df : DataFrame) (c : string) : option Series :=
  if has_column df c then Some (column df c) else None.

(** What is assigned to a column: a Series, aligned on the index, or a scalar,
    repeated on every row. *)
Inductive colvalue :=
  | VSeries (s : Series)
  | VScalar (c : cell).

Definition colvalue_at (v : colvalue) (i : nat) : cell :=
  match v with
  | VSeries s => default (CNum NaN) (s !! i)
  | VScalar c => c
  end.

(** [df[c] = v] *)
Definition df_setitem (df : DataFrame) (c : string) (v : colvalue) : DataFrame :=
  mkDF (if has_column df c then columns df else columns df ++ [c])
       (imap (λ i r, <[c := colvalue_at v i]> r) (rows df)).

(** [df.loc[mask]] *)
Fixpoint select_rows (rs : list record) (mask : list bool) : list record :=
  match rs, mask with
  | r :: rs', b :: mask' =>
      if b then r :: select_rows rs' mask' else select_rows rs' mask'
  | _, _ => []
  end.

Definition df_loc (df : DataFrame) (mask : list bool) : DataFrame :=
  mkDF (columns df) (select_rows (rows df) mask).

(** [df.drop(columns=cs)] *)
Definition df_drop_columns (df : DataFrame) (cs : list string) : result DataFrame :=
  match filter (λ c, c ∉ columns df) cs with
  | c :: _ => Raise (KeyError c)
  | [] =>
      Ok (mkDF (filter (λ c, c ∉ cs) (columns df))
               ((λ r, foldr delete r cs) <$> rows df))
  end.

(** [df.reset_index(drop=True)]: the index is positional already. *)
Definition df_reset_index (df : DataFrame) : DataFrame := df.

(** ** Series operations *)

Definition series_abs (s : Series) : Series :=
  (λ c, CNum (Float.abs (cell_num c))) <$> s.

Definition series_le (s : Series) (y : float) : list bool :=
  (λ c, Float.leb (cell_num c) y) <$> s.

Definition series_eq_str (s : Series) (t : string) : list bool :=
  (λ c, match c with CStr u => bool_decide (u = t) | _ => false end) <$> s.

Definition mask_and (a b : list bool) : list bool := zip_with andb a b.
Definition mask_not (a : list bool) : list bool := negb <$> a.

(** [s.str.strip()] and [s.str.lower()]: cells that are not strings become NaN. *)
Definition series_str_strip (s : Series) : Series :=
  (λ c, match c with CStr u => CStr (str_strip u) | _ => CNum NaN end) <$> s.

Definition series_str_lower (s : Series) : Series :=
  (λ c, match c with CStr u => CStr (str_lower u) | _ => CNum NaN end) <$> s.

(** [s.strip()]: a Series has no attribute [strip]; the string methods are
    reached through the [.str] accessor only. *)
Definition series_strip (s : Series) : result Series :=
  Raise (AttributeError "Series" "strip").

(** ** Group keys and their order *)

#[global] Instance Q_eq_dec : EqDecision Q.
Proof. solve_decision. Defined.
#[global] Instance float_eq_dec : EqDecision float.
Proof. solve_decision. Defined.
#[global] Instance cell_eq_dec : EqDecision cell.
Proof. solve_decision. Defined.

Definition of_nat (n : nat) : float := Fin (Z.of_nat n # 1).

(** Equal numbers are one key: a finite key is kept in lowest terms. *)
Definition norm (x : float) : float :=
  match x with Fin q => Fin (Qred q) | _ => x end.

(** A number in lowest terms. *)
Definition canon (x : float) : Prop := norm x = x.

Definition key_of (keys : list string) (r : record) : list float :=
  (λ c, norm (cell_num (cell_at r c))) <$> keys.

Fixpoint keys_compare (a b : list float) : comparison :=
  match a, b with
  | [], [] => Eq
  | [], _ :: _ => Lt
  | _ :: _, [] => Gt
  | x :: a', y :: b' =>
      match Float.compare x y with
      | Eq => keys_compare a' b'
      | c => c
      end
  end.

Definition keys_lt (a b : list float) : Prop := keys_compare a b = Lt.
Definition keys_le (a b : list float) : Prop := keys_compare a b ≠ Gt.

(** The distinct keys in ascending order. *)
Fixpoint insert_key (k : list float) (ks : list (list float)) : list (list float) :=
  match ks with
  | [] => [k]
  | k' :: ks' =>
      match keys_compare k k' with
      | Lt => k :: ks
      | Eq => ks
      | Gt => k' :: insert_key k ks'
      end
  end.

Definition group_keys (l : list (list float)) : list (list float) :=
  foldr insert_key [] l.

(** ** Aggregation *)

Inductive aggfunc := Count | Mean.

Definition notna_count (s : Series) : nat :=
  length (filter (λ c, negb (isna c)) s).

(** [mean] skips missing values; the mean of none is NaN. *)
Definition nanmean (xs : list float) : float :=
  match filter (λ x, negb (isnan x)) xs with
  | [] => NaN
  | ys => Float.div (foldl Float.add (Fin 0) ys) (of_nat (length ys))
  end.

Definition aggregate (f : aggfunc) (s : Series) : cell :=
  match f with
  | Count => CNum (of_nat (notna_count s))
  | Mean => CNum (nanmean (cell_num <$> s))
  end.

Definition missing_labels (df : DataFrame) (cs : list string) : list string :=
  filter (λ c, c ∉ columns df) cs.

(** [df.dropna(subset=cs)] *)
Definition notna_on (cs : list string) (r : record) : bool :=
  forallb (λ c, negb (isna (cell_at r c))) cs.

Definition dropna (df : DataFrame) (subset : list string) : result DataFrame :=
  match missing_labels df subset with
  | c :: _ => Raise (KeyError c)
  | [] => Ok (mkDF (columns df) (filter (λ r, notna_on subset r) (rows df)))
  end.

(** [df.groupby(keys, as_index=False).agg(name=(column, func), ...)]: records
    with a missing key are left out, and the groups come in key order. *)
Definition valid_key (k : list float) : bool := forallb (λ x, negb (isnan x)) k.

Definition group (keys : list string) (rs : list record) (k : list float) : list record :=
  filter (λ r, key_of keys r = k) rs.

Definition agg_record (keys : list string) (aggs : list (string * (string * aggfunc)))
    (k : list float) (grp : list record) : record :=
  list_to_map
    (zip keys (CNum <$> k) ++
     ((λ a, (a.1, aggregate a.2.2 ((λ r, cell_at r a.2.1) <$> grp))) <$> aggs)).

Definition groupby_agg (df : DataFrame) (keys : list string)
    (aggs : list (string * (string * aggfunc))) : result DataFrame :=
  match missing_labels df (keys ++ ((λ a, a.2.1) <$> aggs)) with
  | c :: _ => Raise (KeyError c)
  | [] =>
      let rs := filter (λ r, valid_key (key_of keys r)) (rows df) in
      Ok (mkDF (keys ++ (fst <$> aggs))
               ((λ k, agg_record keys aggs k (group keys rs k)) <$>
                    group_keys (key_of keys <$> rs)))
  end.

(** [df.sort_values(keys)]: a stable sort, ascending, NaN last. *)
Fixpoint insert_sorted (keys : list string) (r : record) (l : list record) : list record :=
  match l with
  | [] => [r]
  | r' :: l' =>
      match keys_compare (key_of keys r) (key_of keys r') with
      | Gt => r' :: insert_sorted keys r l'
      | _ => r :: l
      end
  end.

Definition sort_values (df : DataFrame) (keys : list string) : result DataFrame :=
  match missing_labels df keys with
  | c :: _ => Raise (KeyError c)
  | [] => Ok (mkDF (columns df) (foldr (insert_sorted keys) [] (rows df)))
  end.

(** * The object store

    Frames are Python objects: a frame value is a reference into the store,
    [df.copy()] allocates, and [df[c] = v] writes in place. *)

Abbreviation ref := nat.
Abbreviation store := (list DataFrame).

Definition M (A : Type) : Type := store → result A * store.

#[global] Instance M_ret : MRet M := λ A a h, (Ok a, h).
#[global] Instance M_bind : MBind M := λ A B f m h,
  match m h with
  | (Ok a, h') => f a h'
  | (Raise e, h') => (Raise e, h')
  end.

Definition lift {A} (r : result A) : M A := λ h, (r, h).
Definition alloc (d : DataFrame) : M ref := λ h, (Ok (length h), h ++ [d]).
Definition load (r : ref) : M DataFrame := λ h, (Ok (h !!! r), h).
Definition update (r : ref) (f : DataFrame → DataFrame) : M () :=
  λ h, (Ok (), <[r := f (h !!! r)]> h).

Definition frame_empty (r : ref) : M bool := d ← load r; mret (df_empty d).
Definition frame_copy (r : ref) : M ref := d ← load r; alloc d.
Definition frame_getitem (r : ref) (c : string) : M Series :=
  d ← load r; lift (df_getitem d c).
Definition frame_get (r : ref) (c : string) : M (option Series) :=
  d ← load r; mret (df_get d c).
Definition frame_setitem (r : ref) (c : string) (v : colvalue) : M () :=
  update r (λ d, df_setitem d c v).
Definition frame_loc (r : ref) (mask : list bool) : M ref :=
  d ← load r; alloc (df_loc d mask).
Definition frame_drop_columns (r : ref) (cs : list string) : M ref :=
  d ← load r; d' ← lift (df_drop_columns d cs); alloc d'.
Definition frame_reset_index (r : ref) : M ref :=
  d ← load r; alloc (df_reset_index d).

Section Pandas.

(** The two conversions pandas does between text and numbers are taken as
    given: [str_to_float s] is the number a string is read as by
    [pd.to_numeric(errors="coerce")] (NaN when it is not a numeral), and
    [float_to_str x] is [str(x)]. *)
Variable str_to_float : string → float.
Variable float_to_str : float → string.

Definition to_numeric_cell (c : cell) : cell :=
  match c with
  | CNum x => CNum x
  | CStr s => CNum (str_to_float s)
  | CNone => CNum NaN
  end.

(** [pd.to_numeric(arg, errors="coerce")]; [arg] is [None] when it comes from
    [df.get] of an absent column, and the result is then the scalar NaN. *)
Definition to_numeric (arg : option Series) : colvalue :=
  match arg with
  | Some s => VSeries (to_numeric_cell <$> s)
  | None => VScalar (CNum NaN)
  end.

(** [s.astype(str)] *)
Definition str_of_cell (c : cell) : string :=
  match c with
  | CStr s => s
  | CNum x => float_to_str x
  | CNone => "None"
  end.

Definition series_astype_str (s : Series) : Series :=
  (λ c, CStr (str_of_cell c)) <$> s.

(** * Data cleaning *)

Definition remove_flat_treadmill (df : option ref) (tol_pct : float) : M (option ref) :=
  match df with
  | None => mret None
  | Some df =>
      e ← frame_empty df;
      if e : bool then mret (Some df) else
      out ← frame_copy df;
      m ← frame_getitem out "modality";
      m ← lift (series_strip (series_astype_str m));
      frame_setitem out "modality_norm" (VSeries (series_str_lower m));;
      g ← frame_get out "grade_pct";
      frame_setitem out "grade_num" (to_numeric g);;
      mn ← frame_getitem out "modality_norm";
      gn ← frame_getitem out "grade_num";
      let drop_mask :=
        mask_and (series_eq_str mn "treadmill") (series_le (series_abs gn) tol_pct) in
      out ← frame_loc out (mask_not drop_mask);
      out ← frame_drop_columns out ["modality_norm"; "grade_num"];
      out ← frame_reset_index out;
      mret (Some out)
  end.

(** * Summaries of the plotting functions

    The two plotting functions return the summary table they plot; drawing and
    saving the figure do not change it and are left out. *)

Definition pick (df : DataFrame) (names : list string) : option string :=
  head (filter (λ n, n ∈ columns df) names).

(** [if c and c in df.columns: df[c] = pd.to_numeric(df[c], errors="coerce")] *)
Definition coerce_column (df : DataFrame) (c : option string) : DataFrame :=
  match c with
  | Some c =>
      if has_column df c then df_setitem df c (to_numeric (Some (column df c))) else df
  | None => df
  end.

Definition option_list' {A} (o : option A) : list A :=
  match o with Some a => [a] | None => [] end.

Definition treadmill_efficiency_plot (treadmill_df : DataFrame) : result DataFrame :=
  let df := treadmill_df in
  let speed := "speed_mph" in
  let grade := "grade_pct" in
  let eff_meas := pick df ["eff_measured"; "efficiency_measured"] in
  let eff_theo := pick df ["eff_theory_net"; "efficiency_theory_net"] in
  let df := foldl coerce_column df [Some speed; Some grade; eff_meas; eff_theo] in
  let need := [speed; grade] ++ option_list' eff_meas in
  d ← dropna df need;
  let agg :=
    [("n", (speed, Count))]
    ++ (if eff_meas is Some c then [("eff_meas", (c, Mean))] else [])
    ++ (if eff_theo is Some c then [("eff_theory", (c, Mean))] else []) in
  s ← groupby_agg d [speed; grade] agg;
  sort_values s [speed; grade].

Definition stair_efficiency_plot (stair_df : DataFrame) : result DataFrame :=
  let sta :=
    foldl coerce_column stair_df
      (Some <$> ["spm"; "aw_active_kcal_min"; "theory_net_kcal_min";
                 "efficiency_measured"; "efficiency_theory_net";
                 "eff_measured"; "eff_theory_net"]) in
  let eff_theory_col :=
    if has_column sta "efficiency_theory_net" then Some "efficiency_theory_net"
    else if has_column sta "eff_theory_net" then Some "eff_theory_net"
    else None in
  d ← dropna sta ["spm"];
  s ← groupby_agg d ["spm"]
        [("aw", ("aw_active_kcal_min", Mean));
         ("net", ("theory_net_kcal_min", Mean));
         ("efficiency_theory",
          if eff_theory_col is Some c then (c, Mean) else ("spm", Count))];
  sort_values s ["spm"].

End Pandas.

(** * Sample conversions

    Instances of the two conversions, for running the model on concrete
    tables: a signed decimal numeral is read as the nearest float and every
    other string is NaN; a finite number is written with its decimal digits,
    at most 17 of them after the point. *)

Definition digit (c : ascii) : option Z :=
  let n := nat_of_ascii c in
  if Nat.leb 48 n && Nat.leb n 57 then Some (Z.of_nat (n - 48)) else None.

Fixpoint read_digits (l : list ascii) (m : Z) (scale : option positive) (seen : bool)
    : option Q :=
  match l with
  | [] => if seen then Some (Qmake m (default 1%positive scale)) else None
  | c :: l' =>
      if Ascii.eqb c "."%char then
        (if scale is None then read_digits l' m (Some 1%positive) seen else None)
      else
        match digit c with
        | Some d => read_digits l' (10 * m + d) (Pos.mul 10 <$> scale) true
        | None => None
        end
  end.

Definition read_decimal (s : string) : float :=
  match String.list_ascii_of_string (str_strip s) with
  | c :: l =>
      if Ascii.eqb c "-"%char
      then from_option (λ q, of_Q (- q)) NaN (read_digits l 0 None false)
      else from_option of_Q NaN (read_digits (c :: l) 0 None false)
  | [] => NaN
  end.

Definition digit_char (d : Z) : ascii := ascii_of_nat (48 + Z.to_nat d).

Fixpoint nat_digits (fuel : nat) (n : Z) (acc : list ascii) : list ascii :=
  match fuel with
  | O => acc
  | S fuel' =>
      let acc' := digit_char (n mod 10) :: acc in
      if (n / 10 =? 0)%Z then acc' else nat_digits fuel' (n / 10) acc'
  end.

Fixpoint frac_digits (fuel : nat) (r d : Z) : list ascii :=
  match fuel with
  | O => []
  | S fuel' =>
      if (r =? 0)%Z then []
      else digit_char (10 * r / d) :: frac_digits fuel' (10 * r mod d) d
  end.

Definition write_decimal (x : float) : string :=
  match x with
  | NaN => "nan"
  | Inf s => if s then "-inf" else "inf"
  | Fin q =>
      let n := Z.abs (Qnum q) in
      let d := Zpos (Qden q) in
      let whole := nat_digits (S (Z.to_nat (Z.log2 n))) (n / d) [] in
      let frac := frac_digits 17 (n mod d) d in
      String.string_of_list_ascii
        ((if (Qnum q <? 0)%Z then ["-"%char] else []) ++ whole ++ "."%char ::
         (if frac is [] then ["0"%char] else frac))
  end.


(** * The formulas of the specification *)

Open Scope Q_scope.
Open Scope float_scope.

(** The equations in the words of the specification, one element at a time. *)
Definition acsm_walking (speed_mph grade_pct : float) : float :=
  let S := speed_mph * 26.8224 in
  let G := grade_pct / 100 in
  3.5 + 0.1 * S + 1.8 * S * G.

Definition kcal_per_min (vo2 mass_kg : float) : float :=
  vo2 * mass_kg / 1000 * 5.

(** The ratio with every non-finite quotient replaced by NaN. *)
Definition ratio_or_nan (mech met : float) : float :=
  let eta := mech / met in
  if isfinite eta then eta else NaN.

Close Scope float_scope.
Close Scope Q_scope.

(** * The cleaner of the specification *)

(** The cleaner in the words of the specification: a record is dropped when
    its modality, trimmed and in lower case, is "treadmill" and the absolute
    value of its grade is at most the tolerance; a grade that is missing or
    not a number never matches. *)
Definition spec_is_flat_treadmill (str_to_float : string → float)
    (float_to_str : float → string) (tolerance_pct : float) (r : record) : bool :=
  bool_decide (str_lower (str_strip (str_of_cell float_to_str (cell_at r "modality")))
               = "treadmill")
  && Float.leb
       (Float.abs (cell_num (to_numeric_cell str_to_float (cell_at r "grade_pct"))))
       tolerance_pct.

Definition spec_remove_flat_treadmill (str_to_float : string → float)
    (float_to_str : float → string) (records : DataFrame) (tolerance_pct : float)
    : DataFrame :=
  mkDF (columns records)
       (filter (λ r, negb (spec_is_flat_treadmill str_to_float float_to_str tolerance_pct r))
               (rows records)).

(** The tables of the examples. *)
Definition flat_treadmill_frame : DataFrame :=
  mkDF ["modality"; "grade_pct"]
       [ {[ "modality" := CStr "Treadmill"; "grade_pct" := CNum (of_Q 0) ]} ].

Definition missing_grade_frame : DataFrame :=
  mkDF ["modality"; "grade_pct"]
       [ {[ "modality" := CStr "treadmill"; "grade_pct" := CNone ]} ].

Definition stair_frame : DataFrame :=
  mkDF ["modality"; "grade_pct"]
       [ {[ "modality" := CStr "stair"; "grade_pct" := CNum (of_Q 0) ]} ].

(** * Coerced records and summary rows *)

(** A record after [pd.to_numeric] on the columns [cs]. *)
Definition coerce_record (str_to_float : string → float) (cs : list string)
    (r : record) : record :=
  foldl (λ r c, <[c := to_numeric_cell str_to_float (cell_at r c)]> r) r cs.

(** The columns among [cs] that the table has. *)
Definition present_columns (df : DataFrame) (cs : list (option string)) : list string :=
  filter (λ c, c ∈ columns df) (omap id cs).

(** The number a cell of the input stands for once its column is coerced. *)
Definition numval (str_to_float : string → float) (r : record) (c : string) : float :=
  cell_num (to_numeric_cell str_to_float (cell_at r c)).

(** The rows of a summary: one per key, in key order. *)
Definition summary (keys : list string) (aggs : list (string * (string * aggfunc)))
    (rs : list record) : list record :=
  (λ k, agg_record keys aggs k (group keys rs k)) <$> group_keys (key_of keys <$> rs).

(** * The records of the treadmill summary *)

Definition treadmill_keys : list string := ["speed_mph"; "grade_pct"].

Definition measured_column (df : DataFrame) : option string :=
  pick df ["eff_measured"; "efficiency_measured"].

Definition theory_column (df : DataFrame) : option string :=
  pick df ["eff_theory_net"; "efficiency_theory_net"].

Definition treadmill_need (df : DataFrame) : list string :=
  treadmill_keys ++ option_list' (measured_column df).

Definition treadmill_aggs (df : DataFrame) : list (string * (string * aggfunc)) :=
  [("n", ("speed_mph", Count))]
  ++ (if measured_column df is Some c then [("eff_meas", (c, Mean))] else [])
  ++ (if theory_column df is Some c then [("eff_theory", (c, Mean))] else []).

(** The records that count: speed and grade, and the measured efficiency when
    the table has that column, are numbers once coerced. *)
Definition treadmill_eligible (str_to_float : string → float) (df : DataFrame)
    : list record :=
  filter (λ r, forallb (λ c, negb (isnan (numval str_to_float r c))) (treadmill_need df))
         (rows df).

Definition treadmill_key (str_to_float : string → float) (r : record) : list float :=
  [norm (numval str_to_float r "speed_mph"); norm (numval str_to_float r "grade_pct")].

Definition treadmill_group (str_to_float : string → float) (df : DataFrame)
    (k : list float) : list record :=
  filter (λ r, treadmill_key str_to_float r = k) (treadmill_eligible str_to_float df).

(** The table without the records that satisfy [p]. *)
Definition without_rows (p : record → bool) (df : DataFrame) : DataFrame :=
  mkDF (columns df) (filter (λ r, negb (p r)) (rows df)).

(** The table of the example: two records at 3.0 mph and 5.0 % with measured
    efficiencies 0.10 and 0.20. *)
Definition two_records_frame : DataFrame :=
  mkDF ["speed_mph"; "grade_pct"; "eff_measured"]
       [ {[ "speed_mph" := CNum (of_Q 3); "grade_pct" := CNum (of_Q 5);
            "eff_measured" := CNum (of_Q 0.10) ]};
         {[ "speed_mph" := CNum (of_Q 3); "grade_pct" := CNum (of_Q 5);
            "eff_measured" := CNum (of_Q 0.20) ]} ].

(** * The records of the stair summary *)

Definition stair_numeric_columns : list string :=
  ["spm"; "aw_active_kcal_min"; "theory_net_kcal_min"; "efficiency_measured";
   "efficiency_theory_net"; "eff_measured"; "eff_theory_net"].

Definition stair_theory_column (df : DataFrame) : option string :=
  if has_column df "efficiency_theory_net" then Some "efficiency_theory_net"
  else if has_column df "eff_theory_net" then Some "eff_theory_net"
  else None.

Definition stair_aggs (df : DataFrame) : list (string * (string * aggfunc)) :=
  [("aw", ("aw_active_kcal_min", Mean));
   ("net", ("theory_net_kcal_min", Mean));
   ("efficiency_theory",
    if stair_theory_column df is Some c then (c, Mean) else ("spm", Count))].

(** The stair records that count: the step rate is a number once coerced. *)
Definition stair_eligible (str_to_float : string → float) (df : DataFrame) : list record :=
  filter (λ r, negb (isnan (numval str_to_float r "spm"))) (rows df).



(** The count a summary row holds in column [c]. *)
Definition cell_count (o : record) (c : string) : nat :=
  match o !! c with
  | Some (CNum (Fin q)) => Z.to_nat (Qnum q)
  | _ => 0
  end.

(** * Tables with negative keys and with gaps *)

(** One treadmill record on a 2 % decline, and one stair record with a
    negative step rate. *)
Definition decline_record : record :=
  {[ "speed_mph" := CNum (of_Q 3); "grade_pct" := CNum (of_Q (-2)) ]}.

Definition decline_frame : DataFrame :=
  mkDF ["speed_mph"; "grade_pct"] [decline_record].

Definition negative_spm_frame : DataFrame :=
  mkDF ["spm"; "aw_active_kcal_min"; "theory_net_kcal_min"]
       [ {[ "spm" := CNum (of_Q (-60)); "aw_active_kcal_min" := CNum (of_Q 8);
            "theory_net_kcal_min" := CNum (of_Q 7) ]} ].

(** Two records at one key, the second without a measured efficiency. *)
Definition measured_gap_frame : DataFrame :=
  mkDF ["speed_mph"; "grade_pct"; "eff_measured"]
       [ {[ "speed_mph" := CNum (of_Q 3); "grade_pct" := CNum (of_Q 5);
            "eff_measured" := CNum (of_Q 0.10) ]};
         {[ "speed_mph" := CNum (of_Q 3); "grade_pct" := CNum (of_Q 5);
            "eff_measured" := CNone ]} ].


(** * Properties of the number model *)

Module FloatFacts.

Lemma compare_refl x : Float.compare x x = Eq.
Proof. destruct x as [q|[]|]; simpl; try done. by apply Qeq_alt. Qed.

Lemma compare_antisym x y : Float.compare y x = CompOpp (Float.compare x y).
Proof.
  destruct x as [a|[]|], y as [b|[]|]; simpl; try done.
  symmetry. apply Qcompare_antisym.
Qed.

Lemma compare_Eq_l x y z :
  Float.compare x y = Eq → Float.compare x z = Float.compare y z.
Proof.
  destruct x as [a|[]|], y as [b|[]|]; simpl; try done.
  intros H%Qeq_alt. destruct z; simpl; [|done..]. by rewrite H.
Qed.

Lemma compare_Eq_r x y z :
  Float.compare y z = Eq → Float.compare x y = Float.compare x z.
Proof.
  intros H. rewrite (compare_antisym y x), (compare_antisym z x).
  f_equal. by apply compare_Eq_l.
Qed.

Lemma compare_Lt_trans x y z :
  Float.compare x y = Lt → Float.compare y z = Lt → Float.compare x z = Lt.
Proof.
  destruct x as [a|[]|], y as [b|[]|], z as [c|[]|]; simpl; try done.
  rewrite <- !Qlt_alt. apply Qlt_trans.
Qed.

Lemma norm_canon x : canon (norm x).
Proof.
  destruct x; unfold canon; simpl; [|done..].
  f_equal. apply Qred_complete, Qred_correct.
Qed.

Lemma compare_Eq_eq x y : canon x → canon y → Float.compare x y = Eq → x = y.
Proof.
  unfold canon. destruct x as [a|[]|], y as [b|[]|]; simpl; try done.
  intros [= Ha] [= Hb] H%Qeq_alt. rewrite <- Ha, <- Hb. f_equal.
  by apply Qred_complete.
Qed.

Lemma Qzero_bool_false q : ¬ (q == 0)%Q → Qzero_bool q = false.
Proof.
  intros H. unfold Qzero_bool. apply not_true_iff_false.
  by rewrite Qeq_bool_iff.
Qed.

Lemma Qneg_bool_true q : (q < 0)%Q → Qneg_bool q = true.
Proof.
  intros H. unfold Qneg_bool. apply negb_true_iff, not_true_iff_false.
  rewrite Qle_bool_iff. by apply Qlt_not_le.
Qed.

Lemma Qneg_bool_false q : (0 <= q)%Q → Qneg_bool q = false.
Proof.
  intros H. unfold Qneg_bool. apply negb_false_iff. by rewrite Qle_bool_iff.
Qed.

Lemma ltb_Fin a b : Float.ltb (Fin a) (Fin b) = true ↔ (a < b)%Q.
Proof.
  unfold Float.ltb. simpl. rewrite andb_true_iff, negb_true_iff, Qle_bool_iff.
  rewrite <- not_true_iff_false, Qeq_bool_iff. split.
  - intros [H1 H2]. apply Qle_lt_or_eq in H1 as [?|?]; done.
  - intros H. split; [by apply Qlt_le_weak|]. intros Heq. rewrite Heq in H.
    by apply Qlt_irrefl in H.
Qed.

Lemma div_Fin a b : Qzero_bool b = false → Float.div (Fin a) (Fin b) = round64 (a / b).
Proof. intros H. unfold Float.div. by rewrite H. Qed.

(** ** Rounding *)

Lemma round64_proper a b : (a == b)%Q → round64 a = round64 b.
Proof. intros H. unfold round64. by rewrite (Qred_complete _ _ H). Qed.

Lemma round64_zero q : (q == 0)%Q → round64 q = Fin 0.
Proof. intros H. by rewrite (round64_proper q 0). Qed.

Lemma round64_not_nan q : isnan (round64 q) = false.
Proof. unfold round64. by repeat case_match. Qed.

Lemma pow2_pos e : (0 < pow2 e)%Q.
Proof. by apply Qpower_0_lt. Qed.

Lemma round_half_even_nonneg q : (0 <= q)%Q → (0 <= round_half_even q)%Z.
Proof.
  intros Hq. assert (0 <= Qfloor q)%Z as Hf.
  { change 0%Z with (Qfloor 0). by apply Qfloor_resp_le. }
  unfold round_half_even. repeat case_match; lia.
Qed.

(** A rounded value has the sign of the exact one. *)
Lemma round64_nonpos q : (q <= 0)%Q → Float.leb (round64 q) (Fin 0) = true.
Proof.
  intros Hq. unfold round64.
  assert (Qred q <= 0)%Q as Hq' by by rewrite Qred_correct.
  destruct (Qzero_bool (Qred q)) eqn:Hz; [done|].
  assert (Qneg_bool (Qred q) = true) as Hn.
  { apply Qneg_bool_true. apply Qle_lt_or_eq in Hq' as [?|He]; [done|].
    apply Qeq_bool_iff in He. unfold Qzero_bool in Hz. congruence. }
  rewrite Hn. case_match; [done|]. cbn. apply Qle_bool_iff.
  rewrite Qred_correct.
  assert (0 <= inject_Z (round_half_even
                           (Qabs (Qred q) / pow2 (Z.max (ilog2 (Qabs (Qred q)) - 52) (-1074))))
               * pow2 (Z.max (ilog2 (Qabs (Qred q)) - 52) (-1074)))%Q as Hr.
  { apply Qmult_le_0_compat; [|apply Qlt_le_weak, pow2_pos].
    change 0%Q with (inject_Z 0). rewrite <- Zle_Qle.
    apply round_half_even_nonneg, Qle_shift_div_l; [apply pow2_pos|].
    rewrite Qmult_0_l. apply Qabs_nonneg. }
  lra.
Qed.

Lemma round_half_even_ge (N : Z) (x : Q) : (inject_Z N <= x)%Q → (N <= round_half_even x)%Z.
Proof.
  intros H. assert (N <= Qfloor x)%Z as Hf.
  { rewrite <- (Qfloor_Z N). by apply Qfloor_resp_le. }
  unfold round_half_even. repeat case_match; lia.
Qed.

Lemma pow2_add a b : (pow2 (a + b) == pow2 a * pow2 b)%Q.
Proof. by apply Qpower_plus. Qed.

(** The exponent of a positive rational is that of its leading bit or less. *)
Lemma ilog2_le (q : Q) : (0 < q)%Q → (pow2 (ilog2 q) <= q)%Q.
Proof.
  intros Hq. unfold ilog2.
  destruct (Qle_bool _ q) eqn:He; [by apply Qle_bool_iff|]. clear He.
  destruct q as [n d]. cbn [Qnum Qden].
  assert (0 < n)%Z as Hn by (unfold Qlt in Hq; cbn in Hq; lia).
  pose proof (Z.log2_spec n Hn) as [Hn1 _].
  pose proof (Z.log2_spec (Z.pos d) (Pos2Z.is_pos d)) as [_ Hd2].
  pose proof (Z.log2_nonneg n) as Hn0. pose proof (Z.log2_nonneg (Z.pos d)) as Hd0.
  replace (Z.log2 n - Z.log2 (Z.pos d) - 1)%Z
    with (Z.log2 n + - Z.succ (Z.log2 (Z.pos d)))%Z by lia.
  rewrite pow2_add. unfold pow2. rewrite Qpower_opp.
  rewrite <- !(Zpower_Qpower 2) by lia.
  set (A := (2 ^ Z.log2 n)%Z) in *. set (B := (2 ^ Z.succ (Z.log2 (Z.pos d)))%Z) in *.
  assert (0 < B)%Z as HB by lia.
  apply Qle_shift_div_r; [by rewrite <- (Zlt_Qlt 0)|]. 
  unfold Qle, Qmult, inject_Z. cbn. nia.
Qed.

Lemma round64_ge_resting q : (7 # 2 <= q)%Q → Float.leb (Fin (7 # 2)) (round64 q) = true.
Proof.
  intros Hq. unfold round64.
  assert (7 # 2 <= Qred q)%Q as Hq' by by rewrite Qred_correct.
  rewrite Qzero_bool_false, Qneg_bool_false by lra.
  set (a := Qabs (Qred q)).
  assert (7 # 2 <= a)%Q as Ha by (unfold a; rewrite Qabs_pos; lra).
  set (u := Z.max (ilog2 a - 52) (-1074)).
  set (m := round_half_even (a / pow2 u)).
  case_match; [done|]. cbn [Float.leb]. apply Qle_bool_iff. rewrite Qred_correct.
  pose proof (pow2_pos u) as Hu.
  destruct (Z_le_gt_dec u (-1)) as [Hneg|Hpos].
  - assert (7 * 2 ^ (- u - 1) <= m)%Z as Hm.
    { apply round_half_even_ge. apply Qle_shift_div_l; [done|].
      rewrite inject_Z_mult, Zpower_Qpower by lia. fold (pow2 (- u - 1)).
      rewrite <- Qmult_assoc, <- pow2_add.
      replace (- u - 1 + u)%Z with (-1)%Z by lia. done. }
    rewrite Zle_Qle, inject_Z_mult, Zpower_Qpower in Hm by lia.
    fold (pow2 (- u - 1)) in Hm.
    assert (inject_Z 7 * pow2 (- u - 1) * pow2 u <= inject_Z m * pow2 u)%Q as Hr
      by (apply Qmult_le_compat_r; [done|by apply Qlt_le_weak]).
    rewrite <- Qmult_assoc, <- pow2_add in Hr.
    replace (- u - 1 + u)%Z with (-1)%Z in Hr by lia. exact Hr.
  - assert (u = ilog2 a - 52)%Z as Hu52 by lia.
    assert (4 <= m)%Z as Hm.
    { apply round_half_even_ge. apply Qle_shift_div_l; [done|].
      apply Qle_trans with (pow2 (ilog2 a)); [|apply ilog2_le; lra].
      replace (ilog2 a) with (52 + u)%Z by lia. rewrite pow2_add.
      apply Qmult_le_compat_r; [done|by apply Qlt_le_weak]. }
    rewrite Zle_Qle in Hm.
    assert (1 <= pow2 u)%Q as H1 by (apply Qpower_1_le; [done|lia]).
    assert (inject_Z 4 * 1 <= inject_Z m * pow2 u)%Q as Hr.
    { apply Qle_trans with (inject_Z m * 1)%Q; [by apply Qmult_le_compat_r|].
      apply Qmult_le_l; [|done]. apply Qlt_le_trans with (inject_Z 4); done. }
    apply Qle_trans with (inject_Z 4 * 1)%Q; [done|exact Hr].
Qed.

Lemma round64_nonneg q : (0 <= q)%Q → Float.leb (Fin 0) (round64 q) = true.
Proof.
  intros Hq. unfold round64.
  assert (0 <= Qred q)%Q as Hq' by by rewrite Qred_correct.
  destruct (Qzero_bool (Qred q)) eqn:Hz; [done|].
  rewrite Qneg_bool_false by done. case_match; [done|]. cbn. apply Qle_bool_iff.
  rewrite Qred_correct.
  apply Qmult_le_0_compat; [|apply Qlt_le_weak, pow2_pos].
  change 0%Q with (inject_Z 0). rewrite <- Zle_Qle.
  apply round_half_even_nonneg, Qle_shift_div_l; [apply pow2_pos|].
  rewrite Qmult_0_l. apply Qabs_nonneg.
Qed.

(** The rounding at work: a sum that is not exact, a product and a quotient
    that overflow, and a product that underflows to zero. *)
Lemma round64_examples :
  Float.add (of_Q 0.1) (of_Q 0.2) = of_Q 0.30000000000000004
  ∧ Float.eqb (Float.add (of_Q 0.1) (of_Q 0.2)) (of_Q 0.3) = false
  ∧ Float.mul (of_Q 1e308) (of_Q 26.8224) = Inf false
  ∧ Float.div (of_Q 1e308) (of_Q 1e-308) = Inf false
  ∧ Float.div (Float.mul (Float.sub (of_Q 3) (of_Q 3.5)) (of_Q 1e-322)) (of_Q 1000) = Fin 0
  ∧ Float.add (of_Q 9007199254740992) (of_Q 1) = of_Q 9007199254740992.
Proof. repeat split; vm_compute; reflexivity. Qed.

Lemma isnan_norm x : isnan (norm x) = isnan x.
Proof. by destruct x. Qed.

End FloatFacts.

(** * Properties of group keys *)

Module KeyFacts.
Import FloatFacts.

Lemma keys_compare_refl a : keys_compare a a = Eq.
Proof. induction a as [|x a IH]; simpl; [done|]. by rewrite compare_refl. Qed.

Lemma keys_compare_antisym a b : keys_compare b a = CompOpp (keys_compare a b).
Proof.
  revert b. induction a as [|x a IH]; intros [|y b]; simpl; try done.
  rewrite (compare_antisym x y). destruct (Float.compare x y); simpl; auto.
Qed.

Lemma keys_compare_Eq_l a b c :
  keys_compare a b = Eq → keys_compare a c = keys_compare b c.
Proof.
  revert b c. induction a as [|x a IH]; intros [|y b] [|z c]; simpl; try done.
  destruct (Float.compare x y) eqn:Hxy; try done. intros H.
  rewrite (compare_Eq_l x y z Hxy).
  destruct (Float.compare y z); auto.
Qed.

#[export] Instance keys_lt_trans : Transitive keys_lt.
Proof.
  unfold keys_lt. intros a. induction a as [|x a IH]; intros [|y b] [|z c]; simpl; try done.
  destruct (Float.compare x y) eqn:Hxy, (Float.compare y z) eqn:Hyz; try done.
  - rewrite (compare_Eq_l x y z Hxy), Hyz. apply IH.
  - by rewrite (compare_Eq_l x y z Hxy), Hyz.
  - by rewrite <- (compare_Eq_r x y z Hyz), Hxy.
  - by rewrite (compare_Lt_trans x y z Hxy Hyz).
Qed.

Lemma keys_lt_irrefl a : ¬ keys_lt a a.
Proof. unfold keys_lt. by rewrite keys_compare_refl. Qed.

Lemma keys_lt_le a b : keys_lt a b → keys_le a b.
Proof. unfold keys_lt, keys_le. by intros ->. Qed.

Lemma keys_compare_Eq_eq a b :
  Forall canon a → Forall canon b → keys_compare a b = Eq → a = b.
Proof.
  intros Ha. revert b. induction Ha as [|x a Hx Ha IH]; intros b Hb; destruct Hb as [|y b Hy Hb];
    simpl; try done.
  destruct (Float.compare x y) eqn:Hxy; try done.
  intros H. f_equal; [by apply compare_Eq_eq | by apply IH].
Qed.

(** ** The list of distinct keys *)

Lemma insert_key_sorted k ks : Sorted keys_lt ks → Sorted keys_lt (insert_key k ks).
Proof.
  induction 1 as [|k' ks Hs IH Hhd]; simpl; [by repeat constructor|].
  destruct (keys_compare k k') eqn:Hk.
  - by constructor.
  - constructor; [by constructor | by constructor].
  - constructor; [done|].
    assert (keys_lt k' k) as Hlt.
    { unfold keys_lt. by rewrite keys_compare_antisym, Hk. }
    destruct Hhd as [|k'' ks' Hlt']; simpl; [by constructor|].
    destruct (keys_compare k k''); by constructor.
Qed.

Lemma group_keys_sorted l : Sorted keys_lt (group_keys l).
Proof. induction l; simpl; [constructor | by apply insert_key_sorted]. Qed.

Lemma group_keys_NoDup l : NoDup (group_keys l).
Proof.
  pose proof (Sorted_StronglySorted keys_lt _ (group_keys_sorted l)) as Hs.
  induction Hs as [|k ks Hs IH Hall]; constructor; [|done].
  intros Hin. rewrite Forall_forall in Hall.
  by apply (keys_lt_irrefl k), Hall.
Qed.

Lemma elem_of_insert_key_1 k a ks : k ∈ insert_key a ks → k = a ∨ k ∈ ks.
Proof.
  induction ks as [|k' ks IH]; simpl.
  - rewrite list_elem_of_singleton. auto.
  - destruct (keys_compare a k'); rewrite ?elem_of_cons; intuition.
Qed.

Lemma elem_of_insert_key_2 k a ks : k ∈ ks → k ∈ insert_key a ks.
Proof.
  induction ks as [|k' ks IH]; simpl; [by intros ?%elem_of_nil|].
  destruct (keys_compare a k'); rewrite ?elem_of_cons; intuition.
Qed.

Lemma elem_of_insert_key_3 a ks :
  Forall canon a → Forall (Forall canon) ks → a ∈ insert_key a ks.
Proof.
  intros Ha. induction 1 as [|k' ks Hk' Hks IH]; simpl; [by left|].
  destruct (keys_compare a k') eqn:Hk; rewrite ?elem_of_cons; auto.
  left. by apply keys_compare_Eq_eq.
Qed.

Lemma elem_of_group_keys l k :
  Forall (Forall canon) l → k ∈ group_keys l ↔ k ∈ l.
Proof.
  intros Hl. revert k. induction Hl as [|a l Ha Hl IH]; intros k; simpl; [done|].
  assert (Forall (Forall canon) (group_keys l)) as Hg.
  { apply Forall_forall. intros x Hx. apply IH in Hx.
    by eapply Forall_forall in Hl. }
  rewrite elem_of_cons. split.
  - intros [->|Hin]%elem_of_insert_key_1; [by left|]. right. by apply IH.
  - intros [->|Hin]; [by apply elem_of_insert_key_3|].
    apply elem_of_insert_key_2. by apply IH.
Qed.

Lemma key_of_canon keys r : Forall canon (key_of keys r).
Proof.
  unfold key_of. apply Forall_fmap, Forall_forall. intros c _. apply norm_canon.
Qed.

(** ** Sorting a table that is in order already *)

Lemma sort_sorted keys rs :
  Sorted (λ r r', keys_le (key_of keys r) (key_of keys r')) rs →
  foldr (insert_sorted keys) [] rs = rs.
Proof.
  induction 1 as [|r rs Hs IH Hhd]; simpl; [done|].
  rewrite IH. destruct Hhd as [|r' rs' Hle]; simpl; [done|].
  unfold keys_le in Hle. by destruct (keys_compare _ _).
Qed.

End KeyFacts.

(** * The formula library *)

Section Formulas.

Open Scope Q_scope.
Open Scope float_scope.

(** Runs the numpy operations of a formula on arrays of known lengths. *)
Ltac np_eval :=
  repeat progress
    (cbn -[Float.mul Float.add Float.sub Float.div of_Q];
     rewrite ?length_zip_with, ?length_fmap, ?Nat.min_id, ?Nat.eqb_refl).

Lemma vo2_treadmill_gross_scalar speed_mph grade_pct :
  vo2_treadmill_gross_mLkgmin (Scalar speed_mph) (Scalar grade_pct)
  = Ok (Scalar (acsm_walking speed_mph grade_pct)).
Proof. reflexivity. Qed.

Lemma vo2_treadmill_gross_arrays (sg : list (float * float)) :
  vo2_treadmill_gross_mLkgmin (Array sg.*1) (Array sg.*2)
  = Ok (Array ((λ p, acsm_walking p.1 p.2) <$> sg)).
Proof.
  unfold vo2_treadmill_gross_mLkgmin, asarray, np_mul, np_add, np_div. np_eval.
  do 2 f_equal. induction sg as [|[s g] sg IH]; [done|].
  cbn -[Float.mul Float.add Float.div of_Q]. by rewrite IH.
Qed.

(** ** C7 *)

(** C7: on scalars and, element by element, on arrays of equal length,
    [vo2_treadmill_gross_mLkgmin] is [3.5 + 0.1*S + 1.8*S*G] with
    [S = speed_mph * 26.8224] and [G = grade_pct / 100]; at speed 0 and
    grade 0 it is 3.5. *)
Theorem vo2_treadmill_gross_formula :
  (∀ speed_mph grade_pct : float,
     vo2_treadmill_gross_mLkgmin (Scalar speed_mph) (Scalar grade_pct)
     = Ok (Scalar (3.5 + 0.1 * (speed_mph * 26.8224)
                   + 1.8 * (speed_mph * 26.8224) * (grade_pct / 100))))
  ∧ (∀ sg : list (float * float),
       vo2_treadmill_gross_mLkgmin (Array sg.*1) (Array sg.*2)
       = Ok (Array ((λ p, acsm_walking p.1 p.2) <$> sg)))
  ∧ (∃ r, vo2_treadmill_gross_mLkgmin (Scalar 0) (Scalar 0) = Ok (Scalar r)
          ∧ (r == 3.5) = true).
Proof.
  split; [|split].
  - apply vo2_treadmill_gross_scalar.
  - apply vo2_treadmill_gross_arrays.
  - by eexists.
Qed.

(** ** C8 *)

Import FloatFacts.

Lemma kcal_per_min_scalar vo2 mass_kg :
  kcal_per_min_from_vo2_mLkgmin (Scalar vo2) (Scalar mass_kg)
  = Ok (Scalar (kcal_per_min vo2 mass_kg)).
Proof. reflexivity. Qed.

Lemma net_kcal_per_min_scalar vo2 mass_kg :
  net_kcal_per_min_from_gross_vo2 (Scalar vo2) (Scalar mass_kg)
  = Ok (Scalar (kcal_per_min (vo2 - 3.5) mass_kg)).
Proof. reflexivity. Qed.

(** Evaluates the decimal literals of a goal. *)
Ltac eval_literals :=
  repeat match goal with
         | |- context [of_Q ?q] =>
             let v := eval vm_compute in (of_Q q) in change (of_Q q) with v
         end.

Lemma nonpos_mul_pos x (b : Q) :
  Float.leb x (Fin 0) = true → (0 < b)%Q → Float.leb (x * Fin b) (Fin 0) = true.
Proof.
  destruct x as [r|[]|]; try done; intros Hx Hb.
  - apply Qle_bool_iff in Hx. cbn [Float.mul]. apply round64_nonpos.
    rewrite <- (Qmult_0_l b). apply Qmult_le_compat_r; [done|by apply Qlt_le_weak].
  - cbn [Float.mul]. rewrite Qzero_bool_false, Qneg_bool_false; [done|lra|lra].
Qed.

Lemma nonpos_div_pos x (b : Q) :
  Float.leb x (Fin 0) = true → (0 < b)%Q → Float.leb (x / Fin b) (Fin 0) = true.
Proof.
  destruct x as [r|[]|]; try done; intros Hx Hb.
  - apply Qle_bool_iff in Hx. rewrite div_Fin by (apply Qzero_bool_false; lra).
    apply round64_nonpos. apply Qle_shift_div_r; [done|]. by rewrite Qmult_0_l.
  - cbn [Float.div]. by rewrite Qneg_bool_false by lra.
Qed.

Lemma kcal_per_min_nonpos vo2 mass_kg :
  Float.ltb vo2 3.5 = true → isfinite mass_kg = true → Float.ltb 0 mass_kg = true →
  Float.leb (kcal_per_min (vo2 - 3.5) mass_kg) 0 = true.
Proof.
  destruct mass_kg as [b| |]; try done.
  unfold kcal_per_min. eval_literals. intros Hv _ Hb.
  apply ltb_Fin in Hb.
  apply nonpos_mul_pos; [|done]. apply nonpos_div_pos; [|done].
  apply nonpos_mul_pos; [|done].
  destruct vo2 as [a|[]|]; try done.
  apply ltb_Fin in Hv. unfold Float.sub. cbn [Float.neg Float.add].
  apply round64_nonpos. rewrite Qred_correct. lra.
Qed.

Lemma kcal_per_min_resting (m : Q) : kcal_per_min (3.5 - 3.5) (Fin m) = Fin 0.
Proof.
  unfold kcal_per_min. eval_literals.
  change (Fin (7 # 2) - Fin (7 # 2)) with (Fin 0). cbn [Float.mul].
  rewrite (round64_zero (0 * m)) by ring.
  rewrite div_Fin by done. rewrite (round64_zero (0 / 1000)) by done.
  cbn [Float.mul]. by rewrite (round64_zero (0 * 5)).
Qed.

(** At a mass that is missing (NaN) the resting net rate is NaN, which is not
    equal to 0. *)
Lemma net_kcal_per_min_nan_mass :
  net_kcal_per_min_from_gross_vo2 (Scalar 3.5) (Scalar NaN) = Ok (Scalar NaN)
  ∧ (NaN == 0) = false.
Proof. split; reflexivity. Qed.

(** C8, amended: [net_kcal_per_min_from_gross_vo2 v m] is
    [kcal_per_min_from_vo2_mLkgmin (v - 3.5) m]; when the gross VO2 is below
    3.5 and the mass is positive and finite it is never positive, and it can
    be negative: at gross VO2 2 and mass 70 it is; and at gross VO2 3.5 it is
    0 for every finite mass. *)
Theorem net_kcal_per_min_resting :
  (∀ vo2 mass_kg : float,
     net_kcal_per_min_from_gross_vo2 (Scalar vo2) (Scalar mass_kg)
     = kcal_per_min_from_vo2_mLkgmin (Scalar (vo2 - 3.5)) (Scalar mass_kg))
  ∧ (∀ vo2 mass_kg : float,
       Float.ltb vo2 3.5 = true → isfinite mass_kg = true → Float.ltb 0 mass_kg = true →
       ∃ r, net_kcal_per_min_from_gross_vo2 (Scalar vo2) (Scalar mass_kg) = Ok (Scalar r)
            ∧ Float.leb r 0 = true)
  ∧ (∃ r, net_kcal_per_min_from_gross_vo2 (Scalar 2) (Scalar 70) = Ok (Scalar r)
          ∧ Float.ltb r 0 = true)
  ∧ (∀ mass_kg : float,
       isfinite mass_kg = true →
       ∃ r, net_kcal_per_min_from_gross_vo2 (Scalar 3.5) (Scalar mass_kg) = Ok (Scalar r)
            ∧ (r == 0) = true).
Proof.
  split; [|split; [|split]].
  - done.
  - intros vo2 mass_kg Hv Hf Hm. eexists. split; [apply net_kcal_per_min_scalar|].
    by apply kcal_per_min_nonpos.
  - eexists. split; [apply net_kcal_per_min_scalar|]. by vm_compute.
  - intros [m| |] Hm; try done. eexists. split; [apply net_kcal_per_min_scalar|].
    by rewrite kcal_per_min_resting.
Qed.

Lemma net_kcal_per_min_resting_witness :
  (∃ r, net_kcal_per_min_from_gross_vo2 (Scalar 3) (Scalar 70) = Ok (Scalar r)
        ∧ Float.leb r 0 = true)
  ∧ (∃ r, net_kcal_per_min_from_gross_vo2 (Scalar 3.5) (Scalar 70) = Ok (Scalar r)
          ∧ (r == 0) = true).
Proof.
  split.
  - apply (proj1 (proj2 net_kcal_per_min_resting) 3 70); by vm_compute.
  - apply (proj2 (proj2 (proj2 net_kcal_per_min_resting)) 70); by vm_compute.
Defined.

(** ** C1 *)

Lemma efficiency_arrays (l : list (float * float)) :
  efficiency (Array l.*1) (Array l.*2)
  = Ok (Array ((λ p, ratio_or_nan p.1 p.2) <$> l)).
Proof.
  unfold efficiency, asarray, np_div. np_eval.
  do 2 f_equal. induction l as [|[m t] l IH]; [done|].
  cbn -[Float.div]. rewrite IH. f_equal.
  unfold ratio_or_nan. by destruct (isfinite _).
Qed.

Lemma ratio_zero_met mech : ratio_or_nan mech 0 = NaN.
Proof.
  destruct mech as [a|[]|]; try done.
  unfold ratio_or_nan. change (of_Q 0) with (Fin 0). cbn.
  by destruct (Qzero_bool a).
Qed.

Lemma efficiency_zero_met mechs :
  efficiency (Array mechs) (Scalar 0) = Ok (Array ((λ _, NaN) <$> mechs)).
Proof.
  unfold efficiency, asarray, np_div. cbn -[Float.div of_Q]. do 2 f_equal.
  rewrite <- list_fmap_compose. apply list_fmap_ext. intros _ m _. cbn -[Float.div of_Q].
  pose proof (ratio_zero_met m) as H. unfold ratio_or_nan in H.
  by destruct (isfinite _).
Qed.

Lemma efficiency_zero_mech : efficiency (Array [of_Q 0]) (Array [of_Q 100]) = Ok (Array [of_Q 0]).
Proof. reflexivity. Qed.

(** On Python numbers the quotient is a [numpy.float64] scalar and the item
    assignment raises. *)
Lemma efficiency_scalars_raise mech met :
  efficiency (Scalar mech) (Scalar met)
  = Raise (TypeError "'numpy.float64' object does not support item assignment").
Proof. reflexivity. Qed.

(** C1: with mechanical power 10 W and metabolic power -5 W, element by
    element, [efficiency] returns the ratio -2 and not NaN, against its
    docstring ("np.nan where met_W<=0"). *)
Theorem efficiency_negative_met :
  efficiency (Array [of_Q 10]) (Array [of_Q (-5)]) = Ok (Array [of_Q (-2)]).
Proof. reflexivity. Qed.

End Formulas.

(** * The data cleaner *)

Section Cleaner.

Variable str_to_float : string → float.
Variable float_to_str : float → string.

Lemma remove_flat_treadmill_none tol_pct (h : store) :
  remove_flat_treadmill str_to_float float_to_str None tol_pct h = (Ok None, h).
Proof. reflexivity. Qed.

Lemma remove_flat_treadmill_empty df tol_pct (h : store) :
  df_empty (h !!! df) = true → remove_flat_treadmill str_to_float float_to_str (Some df) tol_pct h = (Ok (Some df), h).
Proof.
  intros He. unfold remove_flat_treadmill, frame_empty, load.
  unfold mbind, M_bind, mret, M_ret. by rewrite He.
Qed.

(** On a frame that is not empty the call stops at [.strip()], or before it
    when there is no modality column; the copy is all it has allocated. *)
Lemma remove_flat_treadmill_raises df tol_pct (h : store) :
  df_empty (h !!! df) = false →
  remove_flat_treadmill str_to_float float_to_str (Some df) tol_pct h
  = (Raise (if has_column (h !!! df) "modality"
            then AttributeError "Series" "strip" else KeyError "modality"),
     h ++ [h !!! df]).
Proof.
  intros He. unfold remove_flat_treadmill, frame_empty, frame_copy, frame_getitem, load, alloc.
  unfold lift, mbind, M_bind, mret, M_ret. rewrite He.
  rewrite list_lookup_total_middle by done. unfold df_getitem.
  by destruct (has_column (h !!! df) "modality").
Qed.

(** ** C9 *)

(** C9: whatever the call returns or raises, every frame that was in the store
    before the call, the caller's frame among them, is unchanged after it. *)
Theorem remove_flat_treadmill_preserves_store df tol_pct (h : store) (r : ref) :
  r < length h → (remove_flat_treadmill str_to_float float_to_str df tol_pct h).2 !! r = h !! r.
Proof.
  intros Hr. destruct df as [df|]; [|done].
  destruct (df_empty (h !!! df)) eqn:He.
  - by rewrite remove_flat_treadmill_empty.
  - rewrite remove_flat_treadmill_raises by done. cbn. by apply lookup_app_l.
Qed.

(** ** C2, C4, C5 *)

(** C2: on the one-row table with modality "Treadmill" and grade 0.0, at
    tolerance 0.0, the call raises [AttributeError] at [.strip()] and returns
    no table, where the specification drops the row. *)
Theorem remove_flat_treadmill_flat_row :
  (remove_flat_treadmill str_to_float float_to_str (Some 0) (of_Q 0) [flat_treadmill_frame]).1
  = Raise (AttributeError "Series" "strip")
  ∧ spec_remove_flat_treadmill str_to_float float_to_str flat_treadmill_frame (of_Q 0)
    = mkDF ["modality"; "grade_pct"] [].
Proof. split; reflexivity. Qed.

(** C4: on a treadmill record whose grade is missing the call raises
    [AttributeError] at [.strip()], where the specification keeps the row. *)
Theorem remove_flat_treadmill_missing_grade :
  (remove_flat_treadmill str_to_float float_to_str (Some 0) (of_Q 0) [missing_grade_frame]).1
  = Raise (AttributeError "Series" "strip")
  ∧ spec_remove_flat_treadmill str_to_float float_to_str missing_grade_frame (of_Q 0)
    = missing_grade_frame.
Proof. split; reflexivity. Qed.

(** C5: on a table of one stair record the call raises [AttributeError] at
    [.strip()]: no table comes back, where the specification returns the
    stair record. *)
Theorem remove_flat_treadmill_stair_row :
  (remove_flat_treadmill str_to_float float_to_str (Some 0) (of_Q 0) [stair_frame]).1
  = Raise (AttributeError "Series" "strip")
  ∧ rows (spec_remove_flat_treadmill str_to_float float_to_str stair_frame (of_Q 0))
    = rows stair_frame.
Proof. split; reflexivity. Qed.

End Cleaner.

Lemma remove_flat_treadmill_preserves_store_witness :
  (remove_flat_treadmill read_decimal write_decimal (Some 0) (of_Q 0)
     [flat_treadmill_frame]).2 !! 0
  = [flat_treadmill_frame] !! 0.
Proof.
  apply (remove_flat_treadmill_preserves_store read_decimal write_decimal
           (Some 0) (of_Q 0) [flat_treadmill_frame] 0).
  simpl. lia.
Defined.

(** * Coercion of the numeric columns *)

Section Coercion.

Variable str_to_float : string → float.

Lemma to_numeric_cell_idemp c :
  to_numeric_cell str_to_float (to_numeric_cell str_to_float c)
  = to_numeric_cell str_to_float c.
Proof. by destruct c. Qed.

Lemma to_numeric_cell_num c :
  to_numeric_cell str_to_float c = CNum (cell_num (to_numeric_cell str_to_float c)).
Proof. by destruct c. Qed.

Lemma cell_at_insert r c c' v :
  cell_at (<[c := v]> r) c' = if decide (c = c') then v else cell_at r c'.
Proof.
  unfold cell_at. rewrite lookup_insert. by destruct (decide (c = c')).
Qed.

Lemma rows_setitem_series df c (f : cell → cell) :
  rows (df_setitem df c (VSeries (f <$> column df c)))
  = (λ r, <[c := f (cell_at r c)]> r) <$> rows df.
Proof.
  unfold df_setitem, column. cbn. apply list_eq. intros i.
  rewrite list_lookup_imap, (list_lookup_fmap _ (rows df) i).
  destruct (rows df !! i) as [r|] eqn:Hr; [|done]. cbn.
  by rewrite !list_lookup_fmap, Hr.
Qed.

Lemma coerce_column_present df c :
  c ∈ columns df →
  coerce_column str_to_float df (Some c)
  = mkDF (columns df) (coerce_record str_to_float [c] <$> rows df).
Proof.
  intros Hc. unfold coerce_column, to_numeric, has_column.
  rewrite bool_decide_eq_true_2 by done.
  destruct (df_setitem _ _ _) as [cols rs] eqn:Hd. f_equal.
  - apply (f_equal columns) in Hd. cbn in Hd. unfold has_column in Hd.
    by rewrite bool_decide_eq_true_2 in Hd.
  - apply (f_equal rows) in Hd. by rewrite rows_setitem_series in Hd.
Qed.

Lemma coerce_column_absent df c :
  c ∉ columns df → coerce_column str_to_float df (Some c) = df.
Proof.
  intros Hc. unfold coerce_column, has_column. by rewrite bool_decide_eq_false_2.
Qed.

Lemma foldl_coerce_column df cs :
  foldl (coerce_column str_to_float) df cs
  = mkDF (columns df) (coerce_record str_to_float (present_columns df cs) <$> rows df).
Proof.
  revert df. induction cs as [|[c|] cs IH]; intros df.
  - destruct df. cbn. f_equal. by rewrite list_fmap_id.
  - change (foldl (coerce_column str_to_float) df (Some c :: cs))
      with (foldl (coerce_column str_to_float)
              (coerce_column str_to_float df (Some c)) cs).
    unfold present_columns. cbn [omap list_omap id]. rewrite filter_cons.
    destruct (decide (c ∈ columns df)) as [Hc|Hc].
    + rewrite IH, coerce_column_present by done. cbn [columns rows]. f_equal.
      rewrite <- list_fmap_compose. apply list_fmap_ext. intros _ r _.
      unfold present_columns. cbn [columns compose].
      done.
    + by rewrite coerce_column_absent, IH.
  - apply IH.
Qed.

Lemma cell_at_coerce_record cs r c :
  cell_at (coerce_record str_to_float cs r) c
  = if decide (c ∈ cs) then to_numeric_cell str_to_float (cell_at r c) else cell_at r c.
Proof.
  revert r. induction cs as [|c' cs IH]; intros r.
  - by rewrite decide_False by apply not_elem_of_nil.
  - change (coerce_record str_to_float (c' :: cs) r)
      with (coerce_record str_to_float cs
              (<[c' := to_numeric_cell str_to_float (cell_at r c')]> r)).
    rewrite IH, cell_at_insert.
    destruct (decide (c' = c)) as [->|Hne].
    + rewrite (decide_True (P := c ∈ c :: cs)) by left.
      by destruct (decide (c ∈ cs)); rewrite ?to_numeric_cell_idemp.
    + destruct (decide (c ∈ cs)) as [Hin|Hin].
      * by rewrite decide_True by (by right).
      * rewrite decide_False; [done|]. rewrite elem_of_cons. by intros [?|?].
Qed.

Lemma numval_coerce_record cs r c :
  c ∈ cs → cell_at (coerce_record str_to_float cs r) c = CNum (numval str_to_float r c).
Proof.
  intros Hc. rewrite cell_at_coerce_record, decide_True by done.
  apply to_numeric_cell_num.
Qed.

End Coercion.

Section Summaries.

Import FloatFacts KeyFacts.

Lemma filter_all {A} (P : A → Prop) `{∀ x, Decision (P x)} (l : list A) :
  Forall P l → filter P l = l.
Proof.
  induction 1 as [|x l Hx Hl IH]; [done|].
  rewrite filter_cons, decide_True by done. by rewrite IH.
Qed.

Lemma filter_fmap {A B} (f : A → B) (P : B → Prop) `{∀ x, Decision (P x)} (l : list A) :
  filter P (f <$> l) = f <$> filter (λ x, P (f x)) l.
Proof.
  induction l as [|x l IH]; [done|]. cbn [fmap list_fmap].
  rewrite !filter_cons. destruct (decide (P (f x))); cbn; by rewrite <- ?IH.
Qed.

Lemma Sorted_fmap_inv {A B} (f : A → B) (R : relation B) (l : list A) :
  Sorted R (f <$> l) → Sorted (λ x y, R (f x) (f y)) l.
Proof.
  induction l as [|x l IH]; [constructor|].
  inversion_clear 1 as [|?? Hs Hhd]. constructor; [by apply IH|].
  destruct l; [constructor|]. inversion_clear Hhd. by constructor.
Qed.

Lemma Sorted_mono {A} (R R' : relation A) (l : list A) :
  (∀ x y, R x y → R' x y) → Sorted R l → Sorted R' l.
Proof.
  intros HR Hs. rewrite <- (list_fmap_id l). by apply (Sorted_fmap id R R').
Qed.

Lemma missing_labels_nil df cs :
  (∀ c, c ∈ cs → c ∈ columns df) → missing_labels df cs = [].
Proof.
  intros Hcs. unfold missing_labels. induction cs as [|c cs IH]; [done|].
  rewrite filter_cons, decide_False.
  - apply IH. intros c' Hc'. apply Hcs. by right.
  - intros Hc. apply Hc, Hcs. by left.
Qed.

Lemma key_of_insert_notin keys c v r :
  c ∉ keys → key_of keys (<[c := v]> r) = key_of keys r.
Proof.
  intros Hc. unfold key_of. apply list_fmap_ext. intros i c' Hc'.
  rewrite cell_at_insert, decide_False; [done|].
  intros ->. by apply list_elem_of_lookup_2 in Hc'.
Qed.

Lemma key_of_cons c keys r :
  key_of (c :: keys) r = norm (cell_num (cell_at r c)) :: key_of keys r.
Proof. reflexivity. Qed.

Lemma agg_record_cons c keys aggs x k grp :
  agg_record (c :: keys) aggs (x :: k) grp
  = <[c := CNum x]> (agg_record keys aggs k grp).
Proof. reflexivity. Qed.

Lemma key_of_agg_record keys aggs k grp :
  NoDup keys → length k = length keys → Forall canon k →
  key_of keys (agg_record keys aggs k grp) = k.
Proof.
  intros Hnd. revert k.
  induction Hnd as [|c keys Hc Hnd IH]; intros [|x k] Hlen Hk; try done.
  inversion_clear Hk as [|?? Hx Hk'].
  rewrite agg_record_cons, key_of_cons, cell_at_insert, decide_True by done.
  rewrite key_of_insert_notin by done. f_equal; [apply Hx|].
  apply IH; [|done]. by injection Hlen.
Qed.

Lemma key_of_summary keys aggs rs :
  NoDup keys →
  key_of keys <$> summary keys aggs rs = group_keys (key_of keys <$> rs).
Proof.
  intros Hnd. unfold summary. rewrite <- list_fmap_compose.
  etrans; [|apply list_fmap_id].
  apply list_fmap_ext. intros i k Hk%list_elem_of_lookup_2. cbn.
  assert (Forall (Forall canon) (key_of keys <$> rs)) as Hcanon.
  { apply Forall_fmap, Forall_forall. intros r _. apply key_of_canon. }
  apply (proj1 (elem_of_group_keys _ _ Hcanon)) in Hk.
  apply list_elem_of_fmap in Hk as (r & -> & _).
  apply key_of_agg_record; [done| |apply key_of_canon].
  unfold key_of. by rewrite length_fmap.
Qed.

Lemma summary_sorted keys aggs rs :
  NoDup keys →
  Sorted (λ r r', keys_lt (key_of keys r) (key_of keys r')) (summary keys aggs rs).
Proof.
  intros Hnd. apply Sorted_fmap_inv. rewrite key_of_summary by done.
  apply group_keys_sorted.
Qed.

(** [dropna], then [groupby] and [agg], then [sort_values], on a table whose
    key columns are numeric. *)
Lemma summarise_ok (d : DataFrame) need keys aggs :
  NoDup keys →
  (∀ c, c ∈ need → c ∈ columns d) →
  (∀ c, c ∈ keys → c ∈ need) →
  (∀ a, a ∈ aggs → a.2.1 ∈ columns d) →
  (∀ r c, r ∈ rows d → c ∈ keys → ∃ x, cell_at r c = CNum x) →
  (d' ← dropna d need; s ← groupby_agg d' keys aggs; sort_values s keys)
  = Ok (mkDF (keys ++ aggs.*1)
             (summary keys aggs (filter (λ r, notna_on need r) (rows d)))).
Proof.
  intros Hnd Hneed Hkeys Haggs Hnum.
  unfold dropna. rewrite missing_labels_nil by done. cbn [mbind result_bind].
  unfold groupby_agg. rewrite missing_labels_nil; cycle 1.
  { cbn [columns]. intros c [Hc|Hc]%elem_of_app; [by apply Hneed, Hkeys|].
    apply list_elem_of_fmap in Hc as (a & -> & Ha). by apply Haggs. }
  cbn [mbind result_bind rows columns].
  rewrite (filter_all (λ r, valid_key (key_of keys r))); cycle 1.
  { apply Forall_forall. intros r [Hna Hr]%list_elem_of_filter.
    unfold valid_key, key_of. apply Is_true_true, forallb_forall.
    intros x Hx%list_elem_of_In. apply list_elem_of_fmap in Hx as (c & -> & Hc).
    destruct (Hnum r c Hr Hc) as [y Hy]. rewrite Hy, isnan_norm. cbn.
    apply Is_true_true in Hna. unfold notna_on in Hna.
    rewrite forallb_forall in Hna.
    specialize (Hna c). rewrite Hy in Hna. apply Hna, list_elem_of_In. auto. }
  unfold sort_values. rewrite missing_labels_nil; cycle 1.
  { cbn [columns]. intros c Hc. apply elem_of_app. by left. }
  cbn [columns rows]. do 2 f_equal.
  apply sort_sorted.
  eapply Sorted_mono; [|apply summary_sorted; done].
  intros r r'. apply keys_lt_le.
Qed.

End Summaries.

(** * The treadmill summary *)

Section Treadmill.

Import FloatFacts KeyFacts.

Variable str_to_float : string → float.

Local Abbreviation coerced_columns df :=
  (present_columns df
     [Some "speed_mph"; Some "grade_pct"; measured_column df; theory_column df]).

Lemma pick_Some df names c : pick df names = Some c → c ∈ columns df ∧ c ∈ names.
Proof.
  unfold pick. intros H. apply head_Some in H as [l Hl].
  assert (c ∈ filter (λ n, n ∈ columns df) names) as Hc by (rewrite Hl; left).
  by apply list_elem_of_filter in Hc.
Qed.

Lemma elem_of_present_columns df cs c :
  c ∈ present_columns df cs ↔ Some c ∈ cs ∧ c ∈ columns df.
Proof.
  unfold present_columns. rewrite list_elem_of_filter, list_elem_of_omap. split.
  - intros [Hc (o & Ho & Heq)]. cbn in Heq. subst o. done.
  - intros [Ho Hc]. split; [done|]. by exists (Some c).
Qed.

Lemma treadmill_need_coerced df c :
  "speed_mph" ∈ columns df → "grade_pct" ∈ columns df →
  c ∈ treadmill_need df → c ∈ coerced_columns df ∧ c ∈ columns df.
Proof.
  intros Hs Hg. unfold treadmill_need, treadmill_keys.
  rewrite elem_of_present_columns, elem_of_app, !elem_of_cons, elem_of_nil.
  intros [[->|[->|[]]]|Hc]; [split; auto..|].
  destruct (measured_column df) as [c'|] eqn:Hm; cbn in Hc.
  - apply list_elem_of_singleton in Hc as ->.
    apply pick_Some in Hm as [Hm _]. split; auto.
  - by apply elem_of_nil in Hc.
Qed.

Lemma treadmill_aggs_columns df a :
  "speed_mph" ∈ columns df → a ∈ treadmill_aggs df →
  a.2.1 ∈ coerced_columns df ∧ a.2.1 ∈ columns df.
Proof.
  intros Hs. unfold treadmill_aggs.
  rewrite elem_of_present_columns, !elem_of_app, !elem_of_cons, elem_of_nil.
  intros [[->|[]]|[Ha|Ha]]; cbn.
  - split; auto.
  - destruct (measured_column df) as [c|] eqn:Hm; [|by apply elem_of_nil in Ha].
    apply list_elem_of_singleton in Ha as ->. cbn.
    apply pick_Some in Hm as [Hm _]. split; auto 6.
  - destruct (theory_column df) as [c|] eqn:Hm; [|by apply elem_of_nil in Ha].
    apply list_elem_of_singleton in Ha as ->. cbn.
    apply pick_Some in Hm as [Hm _]. split; auto 6.
Qed.

Lemma forallb_ext_elem {A} (f g : A → bool) (l : list A) :
  (∀ x, x ∈ l → f x = g x) → forallb f l = forallb g l.
Proof.
  induction l as [|x l IH]; intros H; [done|]. cbn.
  rewrite H by left. f_equal. apply IH. intros y Hy. apply H. by right.
Qed.

Lemma notna_on_coerced cs need r :
  (∀ c, c ∈ need → c ∈ cs) →
  notna_on need (coerce_record str_to_float cs r)
  = forallb (λ c, negb (isnan (numval str_to_float r c))) need.
Proof.
  intros Hneed. unfold notna_on. apply forallb_ext_elem. intros c Hc.
  by rewrite numval_coerce_record by auto.
Qed.

Lemma treadmill_plot_ok df :
  "speed_mph" ∈ columns df → "grade_pct" ∈ columns df →
  treadmill_efficiency_plot str_to_float df
  = Ok (mkDF (treadmill_keys ++ (treadmill_aggs df).*1)
          (summary treadmill_keys (treadmill_aggs df)
             (coerce_record str_to_float (coerced_columns df)
                <$> treadmill_eligible str_to_float df))).
Proof.
  intros Hs Hg. unfold treadmill_efficiency_plot. cbv zeta.
  rewrite foldl_coerce_column.
  change (pick df ["eff_measured"; "efficiency_measured"]) with (measured_column df).
  change (pick df ["eff_theory_net"; "efficiency_theory_net"]) with (theory_column df).
  change (?a ++ option_list' (measured_column df)) with (treadmill_need df).
  change ([("n", ("speed_mph", Count))] ++ _) with (treadmill_aggs df).
  change ["speed_mph"; "grade_pct"] with treadmill_keys.
  rewrite (summarise_ok _ (treadmill_need df)).
  - cbn [rows]. do 3 f_equal. rewrite filter_fmap. f_equal.
    apply list_filter_iff. intros r.
    rewrite notna_on_coerced; [done|].
    intros c Hc. by apply treadmill_need_coerced.
  - unfold treadmill_keys. apply NoDup_cons. split; [|apply NoDup_singleton].
    by intros ?%list_elem_of_singleton.
  - intros c Hc. by apply treadmill_need_coerced.
  - intros c Hc. unfold treadmill_need. apply elem_of_app. by left.
  - intros a Ha. by apply treadmill_aggs_columns.
  - cbn [rows]. intros r c (r0 & -> & _)%list_elem_of_fmap Hc. eexists.
    apply numval_coerce_record. apply treadmill_need_coerced; [done..|].
    unfold treadmill_need. apply elem_of_app. by left.
Qed.

Lemma speed_coerced df : "speed_mph" ∈ columns df → "speed_mph" ∈ coerced_columns df.
Proof. intros H. apply elem_of_present_columns. split; [left|done]. Qed.

Lemma grade_coerced df : "grade_pct" ∈ columns df → "grade_pct" ∈ coerced_columns df.
Proof. intros H. apply elem_of_present_columns. split; [right; left|done]. Qed.


Lemma theory_coerced df c : theory_column df = Some c → c ∈ coerced_columns df.
Proof.
  intros H. apply elem_of_present_columns. rewrite H.
  apply pick_Some in H as [H _]. split; [do 3 right; left|done].
Qed.

Lemma key_of_coerced df r :
  "speed_mph" ∈ columns df → "grade_pct" ∈ columns df →
  key_of treadmill_keys (coerce_record str_to_float (coerced_columns df) r)
  = treadmill_key str_to_float r.
Proof.
  intros Hs Hg. unfold treadmill_keys, treadmill_key. rewrite !key_of_cons.
  by rewrite !numval_coerce_record by auto using speed_coerced, grade_coerced.
Qed.

Lemma group_coerced df k :
  "speed_mph" ∈ columns df → "grade_pct" ∈ columns df →
  group treadmill_keys
    (coerce_record str_to_float (coerced_columns df) <$> treadmill_eligible str_to_float df) k
  = coerce_record str_to_float (coerced_columns df) <$> treadmill_group str_to_float df k.
Proof.
  intros Hs Hg. unfold group, treadmill_group. rewrite filter_fmap. f_equal.
  apply list_filter_iff. intros r. by rewrite key_of_coerced.
Qed.

Lemma treadmill_agg_lookup df a b grp :
  let o := agg_record treadmill_keys (treadmill_aggs df) [a; b] grp in
  o !! "n" = Some (aggregate Count ((λ r, cell_at r "speed_mph") <$> grp))
  ∧ (∀ c, measured_column df = Some c →
          o !! "eff_meas" = Some (aggregate Mean ((λ r, cell_at r c) <$> grp)))
  ∧ (∀ c, theory_column df = Some c →
          o !! "eff_theory" = Some (aggregate Mean ((λ r, cell_at r c) <$> grp))).
Proof.
  unfold agg_record, treadmill_aggs, treadmill_keys.
  destruct (measured_column df) as [m|], (theory_column df) as [t|];
    cbn -[aggregate]; repeat split; intros; simplify_map_eq; done.
Qed.



Lemma treadmill_eligible_notnan df r c :
  r ∈ treadmill_eligible str_to_float df → c ∈ treadmill_need df →
  isnan (numval str_to_float r c) = false.
Proof.
  intros [Hr _]%list_elem_of_filter Hc. apply Is_true_true in Hr.
  rewrite forallb_forall in Hr. apply negb_true_iff, Hr. by apply list_elem_of_In.
Qed.

(** ** C6 *)



(** ** C10 and the records left out *)

Lemma missing_labels_nil_inv df cs c :
  missing_labels df cs = [] → c ∈ cs → c ∈ columns df.
Proof.
  unfold missing_labels. intros Hnil Hc.
  destruct (decide (c ∈ columns df)) as [|Hn]; [done|].
  assert (c ∈ filter (λ c, c ∉ columns df) cs) as Hin by by apply list_elem_of_filter.
  rewrite Hnil in Hin. by apply elem_of_nil in Hin.
Qed.

(** The summary is the same on two tables with the same columns and the same
    records left by [dropna]. *)
Lemma dropna_ext d d' need :
  columns d' = columns d →
  (missing_labels d need = [] →
   filter (λ r, notna_on need r) (rows d') = filter (λ r, notna_on need r) (rows d)) →
  dropna d' need = dropna d need.
Proof.
  intros Hc Hr. unfold dropna, missing_labels in *. rewrite Hc.
  destruct (filter _ need); [|done]. by rewrite Hr.
Qed.

Lemma without_rows_coerced (p : record → bool) cs need df :
  (missing_labels df need = [] → ∀ c, c ∈ need → c ∈ cs) →
  (∀ r, forallb (λ c, negb (isnan (numval str_to_float r c))) need = true → p r = false) →
  dropna (mkDF (columns df) (coerce_record str_to_float cs <$> rows (without_rows p df))) need
  = dropna (mkDF (columns df) (coerce_record str_to_float cs <$> rows df)) need.
Proof.
  intros Hcs Hp. apply dropna_ext; [done|]. intros Hm. cbn [rows without_rows].
  rewrite !filter_fmap. f_equal. rewrite list_filter_filter. apply list_filter_iff.
  intros r. rewrite notna_on_coerced by (by apply Hcs).
  split; [by intros [? _]|]. intros Hr. split; [done|].
  apply Is_true_true in Hr. by rewrite (Hp r Hr).
Qed.

Lemma treadmill_plot_without (p : record → bool) df :
  (∀ r, forallb (λ c, negb (isnan (numval str_to_float r c))) (treadmill_need df) = true →
        p r = false) →
  treadmill_efficiency_plot str_to_float (without_rows p df)
  = treadmill_efficiency_plot str_to_float df.
Proof.
  intros Hp. unfold treadmill_efficiency_plot. cbv zeta.
  rewrite !foldl_coerce_column.
  change (pick (without_rows p df)) with (pick df).
  change (present_columns (without_rows p df)) with (present_columns df).
  change (columns (without_rows p df)) with (columns df).
  change (pick df ["eff_measured"; "efficiency_measured"]) with (measured_column df).
  change (pick df ["eff_theory_net"; "efficiency_theory_net"]) with (theory_column df).
  change (?a ++ option_list' (measured_column df)) with (treadmill_need df).
  rewrite without_rows_coerced; [done| |done].
  intros Hm c Hc.
  apply treadmill_need_coerced; [..|done];
    apply (missing_labels_nil_inv _ _ _ Hm); unfold treadmill_need, treadmill_keys;
    apply elem_of_app; left; [left|right; left].
Qed.

(** C10: when the table has a measured-efficiency column, the records whose
    measured efficiency is missing or not a number contribute to nothing: the
    summary is the summary of the table without them. *)
Theorem treadmill_missing_measured_excluded df c :
  measured_column df = Some c →
  treadmill_efficiency_plot str_to_float
    (without_rows (λ r, isnan (numval str_to_float r c)) df)
  = treadmill_efficiency_plot str_to_float df.
Proof.
  intros Hc. apply treadmill_plot_without. intros r Hr.
  rewrite forallb_forall in Hr. apply negb_true_iff, Hr, list_elem_of_In.
  unfold treadmill_need. rewrite Hc. apply elem_of_app. right. left.
Qed.

Lemma treadmill_missing_key_excluded df :
  treadmill_efficiency_plot str_to_float
    (without_rows (λ r, isnan (numval str_to_float r "speed_mph")
                        || isnan (numval str_to_float r "grade_pct")) df)
  = treadmill_efficiency_plot str_to_float df.
Proof.
  apply treadmill_plot_without. intros r Hr. rewrite forallb_forall in Hr.
  apply orb_false_iff. split; apply negb_true_iff, Hr, list_elem_of_In;
    unfold treadmill_need, treadmill_keys; apply elem_of_app; left; [left|right; left].
Qed.

Lemma treadmill_key_kept df r out :
  "speed_mph" ∈ columns df → "grade_pct" ∈ columns df →
  r ∈ treadmill_eligible str_to_float df →
  treadmill_efficiency_plot str_to_float df = Ok out →
  treadmill_key str_to_float r ∈ key_of treadmill_keys <$> rows out.
Proof.
  intros Hs Hg Hr Hout. rewrite treadmill_plot_ok in Hout by done.
  injection Hout as <-. cbn [rows].
  assert (NoDup treadmill_keys) as Hnd.
  { apply NoDup_cons. split; [|apply NoDup_singleton].
    by intros ?%list_elem_of_singleton. }
  rewrite key_of_summary by done. apply elem_of_group_keys.
  - apply Forall_fmap, Forall_forall. intros r' _. apply key_of_canon.
  - rewrite <- (key_of_coerced df r) by done.
    by apply list_elem_of_fmap_2, list_elem_of_fmap_2.
Qed.

End Treadmill.

(** * The stair summary *)

Section Stair.

Import FloatFacts KeyFacts.

Variable str_to_float : string → float.

Local Abbreviation stair_coerced df :=
  (present_columns df (Some <$> stair_numeric_columns)).

Lemma stair_column_coerced df c :
  c ∈ stair_numeric_columns → c ∈ columns df → c ∈ stair_coerced df.
Proof.
  intros Hc Hd. apply elem_of_present_columns. split; [|done].
  by apply list_elem_of_fmap_2.
Qed.

Lemma stair_theory_column_Some df c :
  stair_theory_column df = Some c → c ∈ stair_numeric_columns ∧ c ∈ columns df.
Proof.
  unfold stair_theory_column, has_column.
  repeat case_bool_decide; intros [= <-]; (split; [|done]).
  - do 4 right. left.
  - do 6 right. left.
Qed.

Lemma stair_plot_without (p : record → bool) df :
  (∀ r, isnan (numval str_to_float r "spm") = false → p r = false) →
  stair_efficiency_plot str_to_float (without_rows p df)
  = stair_efficiency_plot str_to_float df.
Proof.
  intros Hp. unfold stair_efficiency_plot. cbv zeta.
  rewrite !foldl_coerce_column.
  change (present_columns (without_rows p df)) with (present_columns df).
  change (columns (without_rows p df)) with (columns df).
  rewrite without_rows_coerced; [done| |].
  - intros Hm c ->%list_elem_of_singleton.
    apply stair_column_coerced; [left|].
    apply (missing_labels_nil_inv _ _ _ Hm). left.
  - intros r Hr. cbn in Hr. apply Hp.
    by destruct (isnan (numval str_to_float r "spm")).
Qed.

Lemma stair_plot_ok df :
  "spm" ∈ columns df → "aw_active_kcal_min" ∈ columns df →
  "theory_net_kcal_min" ∈ columns df →
  stair_efficiency_plot str_to_float df
  = Ok (mkDF (["spm"] ++ (stair_aggs df).*1)
          (summary ["spm"] (stair_aggs df)
             (coerce_record str_to_float (stair_coerced df)
                <$> stair_eligible str_to_float df))).
Proof.
  intros Hs Ha Hn. unfold stair_efficiency_plot. cbv zeta.
  rewrite foldl_coerce_column.
  change (has_column (mkDF (columns df) ?rs)) with (has_column df).
  change (if has_column df "efficiency_theory_net" then _ else _)
    with (stair_theory_column df).
  change [("aw", _); _; _] with (stair_aggs df).
  rewrite (summarise_ok _ ["spm"]).
  - cbn [rows]. do 3 f_equal. rewrite filter_fmap. f_equal.
    apply list_filter_iff. intros r.
    rewrite notna_on_coerced.
    + cbn. by rewrite andb_true_r.
    + intros c ->%list_elem_of_singleton. apply stair_column_coerced; [left|done].
  - apply NoDup_singleton.
  - by intros c ->%list_elem_of_singleton.
  - done.
  - intros a. unfold stair_aggs. rewrite !elem_of_cons, elem_of_nil.
    intros [->|[->|[->|[]]]]; [done..|].
    destruct (stair_theory_column df) as [c|] eqn:Hc; cbn; [|done].
    by apply stair_theory_column_Some in Hc as [_ Hc].
  - cbn [rows]. intros r c (r0 & -> & _)%list_elem_of_fmap ->%list_elem_of_singleton.
    eexists. apply numval_coerce_record. apply stair_column_coerced; [left|done].
Qed.

Lemma stair_key_kept df r out :
  "spm" ∈ columns df → "aw_active_kcal_min" ∈ columns df →
  "theory_net_kcal_min" ∈ columns df →
  r ∈ stair_eligible str_to_float df →
  stair_efficiency_plot str_to_float df = Ok out →
  [norm (numval str_to_float r "spm")] ∈ key_of ["spm"] <$> rows out.
Proof.
  intros Hs Ha Hn Hr Hout. rewrite stair_plot_ok in Hout by done.
  injection Hout as <-. cbn [rows].
  rewrite key_of_summary by apply NoDup_singleton. apply elem_of_group_keys.
  - apply Forall_fmap, Forall_forall. intros r' _. apply key_of_canon.
  - apply list_elem_of_fmap. exists (coerce_record str_to_float (stair_coerced df) r).
    split; [|by apply list_elem_of_fmap_2].
    unfold key_of. cbn [fmap list_fmap].
    rewrite numval_coerce_record; [done|]. apply stair_column_coerced; [left|done].
Qed.

End Stair.

(** * Keys that are not numbers, and keys that are negative *)

(** A record with grade -2 makes a treadmill group with n = 1, and a record
    with -60 steps per minute makes a stair group: negative keys are not
    left out. *)
Lemma negative_keys_are_grouped :
  treadmill_efficiency_plot read_decimal decline_frame
  = Ok (mkDF ["speed_mph"; "grade_pct"; "n"]
          [ {[ "speed_mph" := CNum (of_Q 3); "grade_pct" := CNum (of_Q (-2));
               "n" := CNum (of_Q 1) ]} ])
  ∧ stair_efficiency_plot read_decimal negative_spm_frame
    = Ok (mkDF ["spm"; "aw"; "net"; "efficiency_theory"]
            [ {[ "spm" := CNum (of_Q (-60)); "aw" := CNum (of_Q 8);
                 "net" := CNum (of_Q 7); "efficiency_theory" := CNum (of_Q 1) ]} ]).
Proof. split; by vm_compute. Qed.

(** C3, amended: a record whose speed or grade (treadmill) or step rate
    (stairs) is missing or not a number after coercion is left out: each
    summary is the summary of the table without these records.  A record whose
    keys are numbers, negative and infinite ones included, is grouped under
    its key (in the treadmill summary when its measured efficiency, if the
    table has that column, is a number too). *)
Theorem missing_keys_excluded (str_to_float : string → float) (df : DataFrame) :
  treadmill_efficiency_plot str_to_float
    (without_rows (λ r, isnan (numval str_to_float r "speed_mph")
                        || isnan (numval str_to_float r "grade_pct")) df)
  = treadmill_efficiency_plot str_to_float df
  ∧ stair_efficiency_plot str_to_float
      (without_rows (λ r, isnan (numval str_to_float r "spm")) df)
    = stair_efficiency_plot str_to_float df
  ∧ (∀ r out,
       "speed_mph" ∈ columns df → "grade_pct" ∈ columns df →
       r ∈ treadmill_eligible str_to_float df →
       treadmill_efficiency_plot str_to_float df = Ok out →
       treadmill_key str_to_float r ∈ key_of treadmill_keys <$> rows out)
  ∧ (∀ r out,
       "spm" ∈ columns df → "aw_active_kcal_min" ∈ columns df →
       "theory_net_kcal_min" ∈ columns df →
       r ∈ stair_eligible str_to_float df →
       stair_efficiency_plot str_to_float df = Ok out →
       [norm (numval str_to_float r "spm")] ∈ key_of ["spm"] <$> rows out).
Proof.
  split; [apply treadmill_missing_key_excluded|].
  split; [by apply stair_plot_without|].
  split; intros r out.
  - apply treadmill_key_kept.
  - apply stair_key_kept.
Qed.

Lemma missing_keys_excluded_witness :
  [Fin 3; Fin (-2)]
  ∈ key_of treadmill_keys
      <$> [ {[ "speed_mph" := CNum (of_Q 3); "grade_pct" := CNum (of_Q (-2));
               "n" := CNum (of_Q 1) ]} ].
Proof.
  apply (proj1 (proj2 (proj2 (missing_keys_excluded read_decimal decline_frame)))
           decline_record
           (mkDF ["speed_mph"; "grade_pct"; "n"]
              [ {[ "speed_mph" := CNum (of_Q 3); "grade_pct" := CNum (of_Q (-2));
                   "n" := CNum (of_Q 1) ]} ])).
  - left.
  - right. left.
  - vm_compute. left.
  - by vm_compute.
Defined.


Lemma treadmill_missing_measured_excluded_witness :
  treadmill_efficiency_plot read_decimal
    (without_rows (λ r, isnan (numval read_decimal r "eff_measured")) measured_gap_frame)
  = treadmill_efficiency_plot read_decimal measured_gap_frame.
Proof.
  apply (treadmill_missing_measured_excluded read_decimal measured_gap_frame "eff_measured").
  reflexivity.
Defined.

(** * More on the formula library *)

Section FormulaProperties.

Import FloatFacts.

Open Scope Q_scope.
Open Scope float_scope.

Lemma ufunc2_mismatch f xs ys :
  length xs ≠ length ys → length xs ≠ 1%nat → length ys ≠ 1%nat →
  ufunc2 f (Array xs) (Array ys) = Raise broadcast_error.
Proof.
  intros Hne Hx Hy. cbn. rewrite (proj2 (Nat.eqb_neq _ _) Hne).
  destruct xs as [|x [|x' xs]], ys as [|y [|y' ys]]; done.
Qed.

Lemma Qzero_bool_true q : (q == 0)%Q → Qzero_bool q = true.
Proof. intros H. by apply Qeq_bool_iff. Qed.

Ltac np_run :=
  repeat progress
    (cbn -[Float.mul Float.add Float.sub Float.div of_Q];
     rewrite ?length_zip_with, ?length_fmap, ?Nat.min_id, ?Nat.eqb_refl).

(** Evaluates the decimal literals of a goal. *)
Ltac eval_literals :=
  repeat match goal with
         | |- context [of_Q ?q] =>
             let v := eval vm_compute in (of_Q q) in change (of_Q q) with v
         end.

(** ** The stepping equation *)

Lemma vo2_stair_gross_arrays (l : list (float * float)) :
  vo2_stair_gross_mLkgmin (Array l.*1) (Array l.*2)
  = Ok (Array ((λ p, 3.5 + 0.2 * p.1 + 2.4 * p.1 * p.2) <$> l)).
Proof.
  unfold vo2_stair_gross_mLkgmin, asarray, np_mul, np_add. np_run.
  do 2 f_equal. induction l as [|[s h] l IH]; [done|].
  cbn -[Float.mul Float.add of_Q]. by rewrite IH.
Qed.

Lemma vo2_stair_gross_scalar_array spm (hs : list float) :
  vo2_stair_gross_mLkgmin (Scalar spm) (Array hs)
  = Ok (Array ((λ h, 3.5 + 0.2 * spm + 2.4 * spm * h) <$> hs)).
Proof.
  unfold vo2_stair_gross_mLkgmin, asarray, np_mul, np_add. np_run.
  do 2 f_equal. by rewrite <- list_fmap_compose.
Qed.

(** X1: [vo2_stair_gross_mLkgmin] is [3.5 + 0.2*spm + 2.4*spm*step_h_m],
    element by element on two arrays of equal length and with a scalar step
    rate broadcast over an array of step heights; at step rate 0 it is 3.5
    for every finite step height. *)
Theorem vo2_stair_gross_formula :
  (∀ l : list (float * float),
     vo2_stair_gross_mLkgmin (Array l.*1) (Array l.*2)
     = Ok (Array ((λ p, 3.5 + 0.2 * p.1 + 2.4 * p.1 * p.2) <$> l)))
  ∧ (∀ spm (hs : list float),
       vo2_stair_gross_mLkgmin (Scalar spm) (Array hs)
       = Ok (Array ((λ h, 3.5 + 0.2 * spm + 2.4 * spm * h) <$> hs)))
  ∧ (∀ step_h_m : float,
       isfinite step_h_m = true →
       ∃ r, vo2_stair_gross_mLkgmin (Scalar 0) (Scalar step_h_m) = Ok (Scalar r)
            ∧ (r == 3.5) = true).
Proof.
  split; [apply vo2_stair_gross_arrays|]. split; [apply vo2_stair_gross_scalar_array|].
  intros [h| |] Hh; try done. eexists. split; [reflexivity|].
  eval_literals.
  repeat (cbn [Float.mul]; rewrite round64_zero by ring).
  by vm_compute.
Qed.

Lemma vo2_stair_gross_formula_witness :
  ∃ r, vo2_stair_gross_mLkgmin (Scalar 0) (Scalar 0.2) = Ok (Scalar r)
       ∧ (r == 3.5) = true.
Proof.
  apply (proj2 (proj2 vo2_stair_gross_formula) 0.2). reflexivity.
Defined.

(** ** Shapes that do not broadcast *)

(** X2: on two arrays of different lengths, neither of length 1, every
    two-argument function of the library raises [ValueError]. *)
Theorem formulas_shape_mismatch (xs ys : list float) :
  length xs ≠ length ys → length xs ≠ 1%nat → length ys ≠ 1%nat →
  vo2_treadmill_gross_mLkgmin (Array xs) (Array ys) = Raise broadcast_error
  ∧ vo2_stair_gross_mLkgmin (Array xs) (Array ys) = Raise broadcast_error
  ∧ kcal_per_min_from_vo2_mLkgmin (Array xs) (Array ys) = Raise broadcast_error
  ∧ net_kcal_per_min_from_gross_vo2 (Array xs) (Array ys) = Raise broadcast_error
  ∧ efficiency (Array xs) (Array ys) = Raise broadcast_error.
Proof.
  intros Hne Hx Hy.
  assert (Nat.eqb (length xs) (length ys) = false) as Hlen by by apply Nat.eqb_neq.
  unfold vo2_treadmill_gross_mLkgmin, vo2_stair_gross_mLkgmin,
    net_kcal_per_min_from_gross_vo2, kcal_per_min_from_vo2_mLkgmin, efficiency,
    asarray, np_mul, np_add, np_sub, np_div.
  destruct xs as [|x [|x' xs]], ys as [|y [|y' ys]]; try done;
    cbn [length] in Hlen;
    repeat split;
    cbn -[Float.mul Float.add Float.sub Float.div of_Q Nat.eqb];
    rewrite ?length_fmap, ?Hlen; done.
Qed.

Lemma formulas_shape_mismatch_witness :
  efficiency (Array [of_Q 1; of_Q 2]) (Array [of_Q 1; of_Q 2; of_Q 3])
  = Raise broadcast_error.
Proof.
  apply (formulas_shape_mismatch [of_Q 1; of_Q 2] [of_Q 1; of_Q 2; of_Q 3]);
    cbn; lia.
Defined.

(** ** Signs *)

Lemma nonneg_mul x y :
  Float.leb (Fin 0) x = true → Float.leb (Fin 0) y = true →
  isnan (x * y) = true ∨ Float.leb (Fin 0) (x * y) = true.
Proof.
  destruct x as [a|[]|], y as [b|[]|]; try done; intros Hx Hy; cbn [Float.mul].
  - right. apply round64_nonneg. apply Qle_bool_iff in Hx, Hy.
    by apply Qmult_le_0_compat.
  - apply Qle_bool_iff in Hx. destruct (Qzero_bool a); [by left|right].
    by rewrite Qneg_bool_false.
  - apply Qle_bool_iff in Hy. destruct (Qzero_bool b); [by left|right].
    by rewrite Qneg_bool_false.
  - by right.
Qed.

Lemma pos_mul_nonneg (c : Q) x :
  (0 < c)%Q → Float.leb (Fin 0) x = true → Float.leb (Fin 0) (Fin c * x) = true.
Proof.
  intros Hc. destruct x as [b|[]|]; try done; intros Hx; cbn [Float.mul].
  - apply Qle_bool_iff in Hx. apply round64_nonneg, Qmult_le_0_compat; lra.
  - by rewrite Qzero_bool_false, Qneg_bool_false by lra.
Qed.

Lemma nonneg_mul_pos (c : Q) x :
  (0 < c)%Q → Float.leb (Fin 0) x = true → Float.leb (Fin 0) (x * Fin c) = true.
Proof.
  intros Hc. destruct x as [b|[]|]; try done; intros Hx; cbn [Float.mul].
  - apply Qle_bool_iff in Hx. apply round64_nonneg, Qmult_le_0_compat; lra.
  - by rewrite Qzero_bool_false, Qneg_bool_false by lra.
Qed.

Lemma nonneg_div_pos (c : Q) x :
  (0 < c)%Q → Float.leb (Fin 0) x = true → Float.leb (Fin 0) (x / Fin c) = true.
Proof.
  intros Hc. destruct x as [a|[]|]; try done; intros Hx.
  - apply Qle_bool_iff in Hx. rewrite div_Fin by (apply Qzero_bool_false; lra).
    apply round64_nonneg. apply Qle_shift_div_l; [done|]. by rewrite Qmult_0_l.
  - cbn [Float.div]. by rewrite Qneg_bool_false by lra.
Qed.

Lemma resting_add x y :
  Float.leb (Fin (7 # 2)) x = true →
  isnan y = true ∨ Float.leb (Fin 0) y = true →
  isnan (x + y) = true ∨ Float.leb (Fin (7 # 2)) (x + y) = true.
Proof.
  destruct x as [a|[]|], y as [b|[]|]; try done; intros Hx [Hy|Hy]; try done;
    try (by left); try (by right).
  right. cbn [Float.add]. apply round64_ge_resting.
  apply Qle_bool_iff in Hx, Hy. lra.
Qed.

Lemma resting_add_nonneg y :
  Float.leb (Fin 0) y = true → Float.leb (Fin (7 # 2)) (Fin (7 # 2) + y) = true.
Proof.
  destruct y as [b|[]|]; try done. intros Hy%Qle_bool_iff.
  cbn [Float.add]. apply round64_ge_resting. lra.
Qed.

(** X3: for a speed and a grade that are not negative the gross VO2 of
    walking is never below the resting 3.5: it is at least 3.5, or NaN (when
    the speed term has overflowed and is multiplied by a grade of 0). *)
Theorem vo2_treadmill_gross_at_least_resting (speed_mph grade_pct : float) :
  Float.leb 0 speed_mph = true → Float.leb 0 grade_pct = true →
  ∃ r, vo2_treadmill_gross_mLkgmin (Scalar speed_mph) (Scalar grade_pct) = Ok (Scalar r)
       ∧ (isnan r = true ∨ Float.leb 3.5 r = true).
Proof.
  eval_literals. intros Hs Hg. eexists. split; [reflexivity|]. eval_literals.
  apply resting_add.
  - apply resting_add_nonneg, pos_mul_nonneg; [done|]. by apply nonneg_mul_pos.
  - apply nonneg_mul.
    + apply pos_mul_nonneg; [done|]. by apply nonneg_mul_pos.
    + by apply nonneg_div_pos.
Qed.

Lemma vo2_treadmill_gross_at_least_resting_witness :
  ∃ r, vo2_treadmill_gross_mLkgmin (Scalar 3) (Scalar 5) = Ok (Scalar r)
       ∧ (isnan r = true ∨ Float.leb 3.5 r = true).
Proof.
  apply (vo2_treadmill_gross_at_least_resting 3 5); by vm_compute.
Defined.

(** ** Flat ground *)

(** X5: on a flat treadmill (grade 0) the mechanical power is 0 whenever the
    product of mass, [g] and speed is finite, and NaN when that product has
    overflowed or is not a number: it is never a power other than 0. *)
Theorem mech_power_treadmill_flat (mass_kg speed_mph g : float) :
  mech_power_treadmill_W (Scalar mass_kg) (Scalar speed_mph) (Scalar 0) g
  = Ok (Scalar (if isfinite (mass_kg * g * (speed_mph * 0.44704)) then Fin 0 else NaN)).
Proof.
  unfold mech_power_treadmill_W, asarray, np_mul, np_div.
  cbn -[Float.mul Float.div of_Q]. do 2 f_equal.
  replace (of_Q 0 / of_Q 100) with (Fin 0) by by vm_compute.
  destruct (mass_kg * g * (speed_mph * 0.44704)) as [x|s|]; cbn [Float.mul isfinite].
  - apply round64_zero. ring.
  - done.
  - done.
Qed.

(** ** What [efficiency] returns *)

Lemma setitem_where_nonfinite a eta :
  setitem_where a (λ x, negb (isfinite x)) NaN = Ok eta →
  ∃ xs, eta = Array xs ∧ Forall (λ x, isfinite x = true ∨ x = NaN) xs.
Proof.
  destruct a as [x|xs]; [done|]. intros [= <-]. eexists. split; [done|].
  apply Forall_fmap, Forall_forall. intros x _. cbn.
  destruct x; cbn; auto.
Qed.

(** X8: whenever [efficiency] returns, it returns an array none of whose
    elements is an infinity: each one is finite or NaN.  On two Python
    numbers it does not return: the item assignment on the [numpy.float64]
    quotient raises [TypeError]. *)
Theorem efficiency_never_infinite :
  (∀ mech_W met_W eta,
     efficiency mech_W met_W = Ok eta →
     ∃ xs, eta = Array xs ∧ Forall (λ x, isfinite x = true ∨ x = NaN) xs)
  ∧ (∀ mech met,
       efficiency (Scalar mech) (Scalar met)
       = Raise (TypeError "'numpy.float64' object does not support item assignment")).
Proof.
  split; [|done]. intros mech_W met_W eta. unfold efficiency, asarray.
  destruct (np_div mech_W met_W) as [q|e]; [|done]. apply setitem_where_nonfinite.
Qed.

Lemma efficiency_never_infinite_witness :
  ∃ xs, Array [NaN; of_Q 2] = Array xs ∧ Forall (λ x, isfinite x = true ∨ x = NaN) xs.
Proof.
  apply (proj1 efficiency_never_infinite (Array [of_Q 1; of_Q 4]) (Array [of_Q 0; of_Q 2])).
  reflexivity.
Defined.

(** X9: on two arrays of equal length, at a position where the metabolic
    power is 0, [efficiency] gives NaN, whatever the mechanical power there;
    where the metabolic power is finite and not 0 and the mechanical power is
    0, it gives 0. *)
Theorem efficiency_elementwise (mechs mets : list float) (i : nat) (mech : float) (b : Q) :
  length mechs = length mets →
  mechs !! i = Some mech → mets !! i = Some (Fin b) →
  ∃ xs, efficiency (Array mechs) (Array mets) = Ok (Array xs)
      ∧ length xs = length mechs
      ∧ ((b == 0)%Q → xs !! i = Some NaN)
      ∧ (¬ (b == 0)%Q → ∀ a, mech = Fin a → (a == 0)%Q → xs !! i = Some (Fin 0)).
Proof.
  intros Hlen Ha Hb.
  exists ((λ p, ratio_or_nan p.1 p.2) <$> zip mechs mets). split.
  { pose proof (efficiency_arrays (zip mechs mets)) as H.
    by rewrite fst_zip, snd_zip in H by lia. }
  split; [by rewrite length_fmap, length_zip_with, Hlen, Nat.min_id|].
  rewrite list_lookup_fmap, lookup_zip_with, Ha, Hb. cbn -[ratio_or_nan].
  unfold ratio_or_nan. split.
  - intros Hz. f_equal. destruct mech as [a|s|]; cbn [Float.div]; [|done..].
    rewrite (Qzero_bool_true b) by done. by destruct (Qzero_bool a).
  - intros Hnz a -> Hz. f_equal. rewrite div_Fin by by apply Qzero_bool_false.
    rewrite (round64_zero (a / b)); [done|]. unfold Qdiv. rewrite Hz. ring.
Qed.

Lemma efficiency_elementwise_witness :
  ∃ xs, efficiency (Array [of_Q 10; of_Q 3]) (Array [of_Q (-5); of_Q 0]) = Ok (Array xs)
      ∧ length xs = 2%nat
      ∧ ((0 == 0)%Q → xs !! 1%nat = Some NaN)
      ∧ (¬ (0 == 0)%Q → ∀ a, Fin 3 = Fin a → (a == 0)%Q → xs !! 1%nat = Some (Fin 0)).
Proof.
  apply (efficiency_elementwise [of_Q 10; of_Q 3] [of_Q (-5); of_Q 0] 1 (Fin 3) 0);
    reflexivity.
Defined.

End FormulaProperties.

(** * More on the cleaner *)

Section CleanerProperties.

Variable str_to_float : string → float.
Variable float_to_str : float → string.

(** X10: on [None] and on an empty frame the call returns its argument
    itself, not a copy: the result is the caller's object and the store is
    as it was. *)
Theorem remove_flat_treadmill_empty_returns_input df tol_pct (h : store) :
  (df = None ∨ ∃ r, df = Some r ∧ df_empty (h !!! r) = true) →
  remove_flat_treadmill str_to_float float_to_str df tol_pct h = (Ok df, h).
Proof.
  intros [->|(r & -> & He)]; [done|].
  unfold remove_flat_treadmill, frame_empty, load.
  unfold mbind, M_bind, mret, M_ret. by rewrite He.
Qed.

(** X11: on every frame that is not empty the call raises, whatever the
    tolerance and the records: [AttributeError] at [.strip()] when the frame
    has a modality column and [KeyError] for "modality" when it has none.
    No table is returned, and the copy made before the failure stays
    allocated. *)
Theorem remove_flat_treadmill_nonempty_raises r tol_pct (h : store) :
  df_empty (h !!! r) = false →
  ∃ e, remove_flat_treadmill str_to_float float_to_str (Some r) tol_pct h
       = (Raise e, h ++ [h !!! r])
     ∧ ((has_column (h !!! r) "modality" = true ∧ e = AttributeError "Series" "strip")
        ∨ (has_column (h !!! r) "modality" = false ∧ e = KeyError "modality")).
Proof.
  intros He. rewrite remove_flat_treadmill_raises by done. eexists. split; [done|].
  destruct (has_column (h !!! r) "modality"); auto.
Qed.

End CleanerProperties.

Lemma remove_flat_treadmill_empty_returns_input_witness :
  remove_flat_treadmill read_decimal write_decimal (Some 0) (of_Q 0)
    [mkDF ["modality"; "grade_pct"] []]
  = (Ok (Some 0), [mkDF ["modality"; "grade_pct"] []]).
Proof.
  apply (remove_flat_treadmill_empty_returns_input read_decimal write_decimal
           (Some 0) (of_Q 0) [mkDF ["modality"; "grade_pct"] []]).
  right. exists 0. split; reflexivity.
Defined.

Lemma remove_flat_treadmill_nonempty_raises_witness :
  ∃ e, remove_flat_treadmill read_decimal write_decimal (Some 0) (of_Q 0) [stair_frame]
       = (Raise e, [stair_frame] ++ [[stair_frame] !!! 0])
     ∧ ((has_column ([stair_frame] !!! 0) "modality" = true
         ∧ e = AttributeError "Series" "strip")
        ∨ (has_column ([stair_frame] !!! 0) "modality" = false
           ∧ e = KeyError "modality")).
Proof.
  apply (remove_flat_treadmill_nonempty_raises read_decimal write_decimal 0 (of_Q 0)
           [stair_frame]).
  reflexivity.
Defined.

(** * More on the summaries *)

Section SummaryProperties.

Import FloatFacts KeyFacts.

Variable str_to_float : string → float.

(** ** Sums over groups *)

Lemma sum_list_with_fmap {A B} (f : B → nat) (g : A → B) (l : list A) :
  sum_list_with f (g <$> l) = sum_list_with (λ x, f (g x)) l.
Proof. induction l as [|x l IH]; [done|]. cbn. by rewrite IH. Qed.

Lemma sum_list_with_ext_elem {A} (f g : A → nat) (l : list A) :
  (∀ x, x ∈ l → f x = g x) → sum_list_with f l = sum_list_with g l.
Proof.
  induction l as [|x l IH]; intros H; [done|]. cbn.
  rewrite H by left. f_equal. apply IH. intros y Hy. apply H. by right.
Qed.

Lemma sum_list_with_zero {A} (f : A → nat) (l : list A) :
  (∀ x, x ∈ l → f x = 0) → sum_list_with f l = 0.
Proof.
  induction l as [|x l IH]; intros H; [done|]. cbn.
  rewrite H by left. apply IH. intros y Hy. apply H. by right.
Qed.

Lemma sum_indicator {K} `{EqDecision K} (ks : list K) (k : K) :
  NoDup ks → k ∈ ks →
  sum_list_with (λ k', if decide (k = k') then 1 else 0) ks = 1.
Proof.
  induction 1 as [|k0 ks Hk0 Hnd IH]; [by intros ?%elem_of_nil|].
  intros [->|Hk]%elem_of_cons; cbn.
  - rewrite decide_True by done. f_equal. apply sum_list_with_zero.
    intros k' Hk'. rewrite decide_False; [done|]. by intros ->.
  - rewrite decide_False by (by intros <-). by apply IH.
Qed.

(** Groups by key partition a list when every key is listed once. *)
Lemma sum_group_lengths {A K} `{EqDecision K} (key : A → K) (l : list A) (ks : list K) :
  NoDup ks → (∀ x, x ∈ l → key x ∈ ks) →
  sum_list_with (λ k, length (filter (λ x, key x = k) l)) ks = length l.
Proof.
  intros Hnd. induction l as [|x l IH]; intros Hl.
  - by apply sum_list_with_zero.
  - change (length (x :: l)) with (1 + length l).
    rewrite <- IH by (intros y Hy; apply Hl; by right).
    rewrite <- (sum_indicator ks (key x) Hnd) by (apply Hl; left).
    clear. induction ks as [|k ks IH]; [done|]. cbn [sum_list_with].
    rewrite filter_cons. destruct (decide (key x = k)); cbn [length]; lia.
Qed.

(** ** Aggregates of coerced records *)

Lemma count_coerce_record cs g c :
  c ∈ cs →
  (∀ r, r ∈ g → isnan (numval str_to_float r c) = false) →
  aggregate Count ((λ r, cell_at r c) <$> (coerce_record str_to_float cs <$> g))
  = CNum (of_nat (length g)).
Proof.
  intros Hc Hg. cbn. do 2 f_equal. unfold notna_count.
  rewrite filter_all, !length_fmap; [done|].
  apply Forall_fmap, Forall_fmap, Forall_forall. intros r Hr. cbn.
  rewrite numval_coerce_record by done. cbn. by rewrite Hg.
Qed.

Lemma mean_coerce_record cs g c :
  c ∈ cs →
  aggregate Mean ((λ r, cell_at r c) <$> (coerce_record str_to_float cs <$> g))
  = CNum (nanmean ((λ r, numval str_to_float r c) <$> g)).
Proof.
  intros Hc. cbn. do 2 f_equal. rewrite <- !list_fmap_compose.
  apply list_fmap_ext. intros _ r _. cbn. by rewrite numval_coerce_record.
Qed.

Lemma cell_count_of_nat (o : record) c n :
  o !! c = Some (CNum (of_nat n)) → cell_count o c = n.
Proof. unfold cell_count. intros ->. cbn. apply Nat2Z.id. Qed.

(** ** The treadmill summary *)


Lemma treadmill_keys_coerced df :
  "speed_mph" ∈ columns df → "grade_pct" ∈ columns df →
  key_of treadmill_keys
    <$> (coerce_record str_to_float
           (present_columns df
              [Some "speed_mph"; Some "grade_pct"; measured_column df; theory_column df])
           <$> treadmill_eligible str_to_float df)
  = treadmill_key str_to_float <$> treadmill_eligible str_to_float df.
Proof.
  intros Hs Hg. rewrite <- list_fmap_compose. apply list_fmap_ext. intros _ r _.
  by apply key_of_coerced.
Qed.

Lemma treadmill_key_canon r : Forall canon (treadmill_key str_to_float r).
Proof. unfold treadmill_key. repeat constructor; apply norm_canon. Qed.

Lemma treadmill_keys_canon (l : list record) :
  Forall (Forall canon) (treadmill_key str_to_float <$> l).
Proof. apply Forall_fmap, Forall_forall. intros r _. apply treadmill_key_canon. Qed.

(** The row of the summary at a key [k]. *)
Lemma treadmill_row df k :
  "speed_mph" ∈ columns df → "grade_pct" ∈ columns df →
  k ∈ treadmill_key str_to_float <$> treadmill_eligible str_to_float df →
  let cs := present_columns df
              [Some "speed_mph"; Some "grade_pct"; measured_column df; theory_column df] in
  let o := agg_record treadmill_keys (treadmill_aggs df) k
             (group treadmill_keys
                (coerce_record str_to_float cs <$> treadmill_eligible str_to_float df) k) in
  let grp := treadmill_group str_to_float df k in
  o !! "n" = Some (CNum (of_nat (length grp)))
  ∧ (∀ c, theory_column df = Some c →
          o !! "eff_theory" = Some (CNum (nanmean ((λ r, numval str_to_float r c) <$> grp)))).
Proof.
  intros Hs Hg (r0 & -> & Hr0)%list_elem_of_fmap. cbv zeta.
  rewrite group_coerced by done.
  destruct (treadmill_agg_lookup df (norm (numval str_to_float r0 "speed_mph"))
              (norm (numval str_to_float r0 "grade_pct"))
              (coerce_record str_to_float
                 (present_columns df
                    [Some "speed_mph"; Some "grade_pct"; measured_column df; theory_column df])
                 <$> treadmill_group str_to_float df (treadmill_key str_to_float r0)))
    as (Hn & _ & Ht).
  fold (treadmill_key str_to_float r0) in Hn, Ht. split.
  - rewrite Hn. f_equal. apply count_coerce_record.
    + by apply speed_coerced.
    + intros r [_ Hr]%list_elem_of_filter.
      apply (treadmill_eligible_notnan _ df); [done|].
      unfold treadmill_need. apply elem_of_app. left. left.
  - intros c Hc. rewrite (Ht c Hc). f_equal. apply mean_coerce_record.
    by apply theory_coerced.
Qed.

(** X12: the counts of the treadmill summary add up: the [n] of its rows sum
    to the number of records whose speed and grade (and measured efficiency,
    when the table has that column) are numbers.  No such record is lost or
    counted twice. *)
Theorem treadmill_counts_add_up df :
  "speed_mph" ∈ columns df → "grade_pct" ∈ columns df →
  ∃ out, treadmill_efficiency_plot str_to_float df = Ok out
       ∧ sum_list_with (λ o, cell_count o "n") (rows out)
         = length (treadmill_eligible str_to_float df).
Proof.
  intros Hs Hg. eexists. split; [by apply treadmill_plot_ok|]. cbn [rows].
  unfold summary. rewrite sum_list_with_fmap, treadmill_keys_coerced by done.
  pose proof (treadmill_keys_canon (treadmill_eligible str_to_float df)) as Hcanon.
  rewrite (sum_list_with_ext_elem _
             (λ k, length (filter (λ r, treadmill_key str_to_float r = k)
                             (treadmill_eligible str_to_float df)))).
  - apply sum_group_lengths; [apply group_keys_NoDup|].
    intros r Hr. apply elem_of_group_keys; [done|]. by apply list_elem_of_fmap_2.
  - intros k Hk. apply (proj1 (elem_of_group_keys _ _ Hcanon)) in Hk.
    apply cell_count_of_nat. by apply (treadmill_row df k).
Qed.

Lemma treadmill_missing_columns df :
  "speed_mph" ∉ columns df ∨ "grade_pct" ∉ columns df →
  ∃ c, treadmill_efficiency_plot str_to_float df = Raise (KeyError c)
     ∧ c ∈ treadmill_keys ∧ c ∉ columns df.
Proof.
  intros Hmiss. unfold treadmill_efficiency_plot. cbv zeta.
  rewrite foldl_coerce_column. unfold dropna, missing_labels. cbn [columns app].
  rewrite !filter_cons.
  destruct (decide ("speed_mph" ∉ columns df)) as [Hs|Hs].
  { exists "speed_mph". split; [done|]. split; [left|done]. }
  destruct (decide ("grade_pct" ∉ columns df)) as [Hg|Hg].
  { exists "grade_pct". split; [done|]. split; [right; left|done]. }
  by destruct Hmiss.
Qed.

(** X13: without a speed or a grade column the treadmill summary raises
    [KeyError] for one of the two that the table does not have; with both it
    returns a table. *)
Theorem treadmill_missing_column_raises df :
  ("speed_mph" ∉ columns df ∨ "grade_pct" ∉ columns df →
   ∃ c, treadmill_efficiency_plot str_to_float df = Raise (KeyError c)
      ∧ c ∈ treadmill_keys ∧ c ∉ columns df)
  ∧ ("speed_mph" ∈ columns df → "grade_pct" ∈ columns df →
     ∃ out, treadmill_efficiency_plot str_to_float df = Ok out).
Proof.
  split; [apply treadmill_missing_columns|].
  intros Hs Hg. eexists. by apply treadmill_plot_ok.
Qed.

(** ** The stair summary *)








Lemma stair_missing_columns df :
  "spm" ∉ columns df ∨ "aw_active_kcal_min" ∉ columns df
  ∨ "theory_net_kcal_min" ∉ columns df →
  ∃ c, stair_efficiency_plot str_to_float df = Raise (KeyError c)
     ∧ c ∈ ["spm"; "aw_active_kcal_min"; "theory_net_kcal_min"] ∧ c ∉ columns df.
Proof.
  intros Hmiss. unfold stair_efficiency_plot. cbv zeta.
  rewrite foldl_coerce_column. unfold dropna, missing_labels. cbn [columns].
  rewrite !filter_cons, filter_nil.
  destruct (decide ("spm" ∉ columns df)) as [Hs|Hs].
  { exists "spm". split; [done|]. split; [left|done]. }
  cbn [mbind result_bind]. unfold groupby_agg, missing_labels.
  cbn [columns app fmap list_fmap fst snd]. rewrite !filter_cons, filter_nil.
  rewrite (decide_False (P := "spm" ∉ columns df)) by done.
  destruct (decide ("aw_active_kcal_min" ∉ columns df)) as [Ha|Ha].
  { exists "aw_active_kcal_min". split; [done|]. split; [right; left|done]. }
  destruct (decide ("theory_net_kcal_min" ∉ columns df)) as [Hn|Hn].
  { exists "theory_net_kcal_min". split; [done|]. split; [do 2 right; left|done]. }
  by destruct Hmiss as [?|[?|?]].
Qed.

(** X15: without the step-rate column or one of the two energy columns the
    stair summary raises [KeyError] for one of the three that the table does
    not have; with the three it returns a table. *)
Theorem stair_missing_column_raises df :
  ("spm" ∉ columns df ∨ "aw_active_kcal_min" ∉ columns df
   ∨ "theory_net_kcal_min" ∉ columns df →
   ∃ c, stair_efficiency_plot str_to_float df = Raise (KeyError c)
      ∧ c ∈ ["spm"; "aw_active_kcal_min"; "theory_net_kcal_min"] ∧ c ∉ columns df)
  ∧ ("spm" ∈ columns df → "aw_active_kcal_min" ∈ columns df →
     "theory_net_kcal_min" ∈ columns df →
     ∃ out, stair_efficiency_plot str_to_float df = Ok out).
Proof.
  split; [apply stair_missing_columns|].
  intros Hs Ha Hn. eexists. by apply stair_plot_ok.
Qed.

(** ** Which columns are read *)

Lemma pick_None df names :
  pick df names = None ↔ ∀ n, n ∈ names → n ∉ columns df.
Proof.
  unfold pick. rewrite head_None. split.
  - intros Hnil n Hn Hc.
    assert (n ∈ filter (λ n, n ∈ columns df) names) as Hin by by apply list_elem_of_filter.
    rewrite Hnil in Hin. by apply elem_of_nil in Hin.
  - intros Hnone. induction names as [|n names IH]; [done|].
    rewrite filter_cons, decide_False by (apply Hnone; left).
    apply IH. intros n' Hn'. apply Hnone. by right.
Qed.

Lemma pick_is_Some df a b :
  is_Some (pick df [a; b]) ↔ a ∈ columns df ∨ b ∈ columns df.
Proof.
  rewrite <- not_eq_None_Some, pick_None. split.
  - intros Hn. destruct (decide (a ∈ columns df)) as [|Ha]; [by left|].
    destruct (decide (b ∈ columns df)) as [|Hb]; [by right|].
    destruct Hn. intros n [->|[->|[]%elem_of_nil]%elem_of_cons]%elem_of_cons; done.
  - intros [Ha|Hb] Hn; [apply (Hn a); [left|done]|apply (Hn b); [right; left|done]].
Qed.


(** X16: the treadmill summary has the columns [speed_mph], [grade_pct] and
    [n]; it has [eff_meas] exactly when the table has a measured-efficiency
    column under one of its two names, and [eff_theory] exactly when it has a
    theoretical-efficiency column under one of its two names. *)
Theorem treadmill_summary_columns df :
  "speed_mph" ∈ columns df → "grade_pct" ∈ columns df →
  ∃ out, treadmill_efficiency_plot str_to_float df = Ok out
     ∧ take 3 (columns out) = ["speed_mph"; "grade_pct"; "n"]
     ∧ ("eff_meas" ∈ columns out
        ↔ "eff_measured" ∈ columns df ∨ "efficiency_measured" ∈ columns df)
     ∧ ("eff_theory" ∈ columns out
        ↔ "eff_theory_net" ∈ columns df ∨ "efficiency_theory_net" ∈ columns df).
Proof.
  intros Hs Hg. eexists. split; [by apply treadmill_plot_ok|]. cbn [columns].
  split; [done|].
  rewrite <- !pick_is_Some.
  change (pick df ["eff_measured"; "efficiency_measured"]) with (measured_column df).
  change (pick df ["eff_theory_net"; "efficiency_theory_net"]) with (theory_column df).
  unfold treadmill_aggs, treadmill_keys.
  destruct (measured_column df) as [m|], (theory_column df) as [t|]; cbn;
    split; (split; [intros Hin|intros HS]);
    first [ done
          | by apply is_Some_None in HS
          | by repeat (first [by left | right])
          | exfalso; rewrite !elem_of_cons, elem_of_nil in Hin; by intuition ].
Qed.


(** ** Tables that are numeric already *)

Lemma lookup_coerce_record cs (r : record) c :
  coerce_record str_to_float cs r !! c
  = if decide (c ∈ cs) then Some (to_numeric_cell str_to_float (cell_at r c)) else r !! c.
Proof.
  revert r. induction cs as [|c' cs IH]; intros r.
  - by rewrite decide_False by apply not_elem_of_nil.
  - change (coerce_record str_to_float (c' :: cs) r)
      with (coerce_record str_to_float cs
              (<[c' := to_numeric_cell str_to_float (cell_at r c')]> r)).
    rewrite IH, cell_at_insert.
    destruct (decide (c' = c)) as [->|Hne].
    + rewrite (decide_True (P := c ∈ c :: cs)) by left.
      destruct (decide (c ∈ cs)); [by rewrite to_numeric_cell_idemp|].
      by rewrite lookup_insert_eq.
    + destruct (decide (c ∈ cs)) as [Hin|Hin].
      * by rewrite decide_True by (by right).
      * rewrite decide_False by (rewrite elem_of_cons; by intros [?|?]).
        by rewrite lookup_insert_ne.
Qed.

Lemma coerce_record_idemp cs (r : record) :
  coerce_record str_to_float cs (coerce_record str_to_float cs r)
  = coerce_record str_to_float cs r.
Proof.
  apply map_eq. intros c. rewrite !lookup_coerce_record.
  destruct (decide (c ∈ cs)) as [Hc|Hc]; [|done].
  by rewrite cell_at_coerce_record, decide_True, to_numeric_cell_idemp.
Qed.

(** X18: both summaries are the same on a table and on the table whose
    numeric columns have been parsed beforehand: text that reads as a number
    and the number itself are not told apart, and parsing twice changes
    nothing. *)
Theorem summaries_of_parsed_table df :
  treadmill_efficiency_plot str_to_float
    (mkDF (columns df)
       (coerce_record str_to_float
          (present_columns df
             [Some "speed_mph"; Some "grade_pct"; measured_column df; theory_column df])
          <$> rows df))
  = treadmill_efficiency_plot str_to_float df
  ∧ stair_efficiency_plot str_to_float
      (mkDF (columns df)
         (coerce_record str_to_float (present_columns df (Some <$> stair_numeric_columns))
            <$> rows df))
    = stair_efficiency_plot str_to_float df.
Proof.
  split.
  - unfold treadmill_efficiency_plot. cbv zeta. rewrite !foldl_coerce_column.
    cbn [columns rows]. unfold pick, present_columns. cbn [columns].
    rewrite <- list_fmap_compose.
    f_equal. f_equal. f_equal. apply list_fmap_ext. intros _ r _.
    apply coerce_record_idemp.
  - unfold stair_efficiency_plot. cbv zeta. rewrite !foldl_coerce_column.
    cbn [columns rows]. unfold has_column, present_columns. cbn [columns].
    rewrite <- list_fmap_compose.
    f_equal. f_equal. f_equal. apply list_fmap_ext. intros _ r _.
    apply coerce_record_idemp.
Qed.

End SummaryProperties.

Lemma treadmill_counts_add_up_witness :
  ∃ out, treadmill_efficiency_plot read_decimal two_records_frame = Ok out
       ∧ sum_list_with (λ o, cell_count o "n") (rows out)
         = length (treadmill_eligible read_decimal two_records_frame).
Proof.
  apply (treadmill_counts_add_up read_decimal two_records_frame); [left|right; left].
Defined.

Lemma treadmill_missing_column_raises_witness :
  ∃ c, treadmill_efficiency_plot read_decimal stair_frame = Raise (KeyError c)
     ∧ c ∈ treadmill_keys ∧ c ∉ columns stair_frame.
Proof.
  apply (proj1 (treadmill_missing_column_raises read_decimal stair_frame)).
  left. apply (bool_decide_unpack _). by vm_compute.
Defined.


Lemma stair_missing_column_raises_witness :
  ∃ c, stair_efficiency_plot read_decimal stair_frame = Raise (KeyError c)
     ∧ c ∈ ["spm"; "aw_active_kcal_min"; "theory_net_kcal_min"]
     ∧ c ∉ columns stair_frame.
Proof.
  apply (proj1 (stair_missing_column_raises read_decimal stair_frame)).
  left. apply (bool_decide_unpack _). by vm_compute.
Defined.

Lemma treadmill_summary_columns_witness :
  ∃ out, treadmill_efficiency_plot read_decimal two_records_frame = Ok out
     ∧ take 3 (columns out) = ["speed_mph"; "grade_pct"; "n"]
     ∧ ("eff_meas" ∈ columns out
        ↔ "eff_measured" ∈ columns two_records_frame
          ∨ "efficiency_measured" ∈ columns two_records_frame)
     ∧ ("eff_theory" ∈ columns out
        ↔ "eff_theory_net" ∈ columns two_records_frame
          ∨ "efficiency_theory_net" ∈ columns two_records_frame).
Proof.
  apply (treadmill_summary_columns read_decimal two_records_frame); [left|right; left].
Defined.

